(** * golinks: command/bookmark dispatch and the usage history

    A shallow embedding of the handlers [IndexHandler] and [HistoryHandler]
    of the server and of [AddHistoryEntry] and [BuildHistoryKey]
    (history.go), together with the properties of the dispatcher and of the
    history log.

    Go strings and byte slices are [string] (a list of 8-bit characters);
    an [error] is its message; [int64] timestamps are [Z].  The bitcask
    store, the wall clock, encoding/json and fmt.Sprintf are libraries: the
    store is modelled as an ordered key/value list, the others are fields of
    the [Env] class. *)

From Stdlib Require Import ZArith List String Ascii Bool Lia.
Import ListNotations.
Local Open Scope string_scope.
Local Open Scope Z_scope.

Set Implicit Arguments.

(** ** Results and errors *)

Definition error := string.
Definition bytes := string.

Inductive result (A : Type) : Type :=
| Ok (a : A)
| Err (e : error).
Arguments Ok {A} a.
Arguments Err {A} e.

(** ** The parts of the Go library the handlers use *)

Module Go.

(** [strings.Split(s, sep)] for a one-byte separator: the pieces between the
    separators, of which there is always at least one. *)
Fixpoint Split (s : string) (sep : ascii) : list string :=
  match s with
  | EmptyString => [EmptyString]
  | String c s' =>
      if Ascii.eqb c sep then EmptyString :: Split s' sep
      else match Split s' sep with
           | [] => [String c EmptyString]
           | t :: ts => String c t :: ts
           end
  end.

(** [strings.Join(elems, sep)]. *)
Definition Join (elems : list string) (sep : string) : string :=
  String.concat sep elems.

(** The byte ['0' + d]. *)
Definition digit (d : Z) : ascii := ascii_of_N (48 + Z.to_N d).

(** The digit loop of fmt's [fmtInteger]: the digits of [u] are written in
    front of [buf], last digit first, while [u >= 10].  [fuel] bounds the
    number of turns. *)
Fixpoint fmt_digits (fuel : nat) (u : Z) (buf : string) : string :=
  match fuel with
  | O => buf
  | S fuel' =>
      if u <? 10 then String (digit u) buf
      else fmt_digits fuel' (u / 10) (String (digit (u mod 10)) buf)
  end.

(** [fmt.Sprintf("%d", n)]: the sign, then the digits of the magnitude.  The
    loop is given as many turns as the magnitude has binary digits, which is
    never fewer than it has decimal digits. *)
Definition fmt_d (n : Z) : string :=
  let u := Z.abs n in
  let s := fmt_digits (S (Z.to_nat (Z.log2 u))) u "" in
  if n <? 0 then String "-" s else s.

End Go.

(** ** The persistent store

    Modelled from the spec: the bitcask handle [db] is a library value, of
    which the spec (4.1) fixes the contract: an ordered key to bytes mapping
    with [Put], [Get] and [Scan(prefix, visit)]; [Put] overwrites; [Scan] visits
    the keys that start with the prefix in ascending byte order and stops at
    the first error of [visit]; reads and writes may fail.

    A record on disk that can no longer be read back is [Unreadable]; when
    the handle is closed or its medium fails, [fault] holds the error every
    operation returns. *)

Inductive cell : Type :=
| Readable (v : bytes)
| Unreadable (e : error).

Record Bitcask : Type := {
  cells : list (string * cell);
  fault : option error
}.

Definition ErrKeyNotFound : error := "error: key not found".

Fixpoint lookup (key : string) (l : list (string * cell)) : option cell :=
  match l with
  | [] => None
  | (k, c) :: l' => if String.eqb key k then Some c else lookup key l'
  end.

(** Insertion in key order, replacing the record of an existing key. *)
Fixpoint insert (key : string) (c : cell) (l : list (string * cell))
  : list (string * cell) :=
  match l with
  | [] => [(key, c)]
  | (k, c') :: l' =>
      match String.compare key k with
      | Lt => (key, c) :: (k, c') :: l'
      | Eq => (key, c) :: l'
      | Gt => (k, c') :: insert key c l'
      end
  end.

Definition Put (key : string) (value : bytes) (db : Bitcask)
  : option error * Bitcask :=
  match fault db with
  | Some e => (Some e, db)
  | None => (None, {| cells := insert key (Readable value) (cells db);
                      fault := None |})
  end.

Definition Get (key : string) (db : Bitcask) : result bytes :=
  match fault db with
  | Some e => Err e
  | None =>
      match lookup key (cells db) with
      | None => Err ErrKeyNotFound
      | Some (Readable v) => Ok v
      | Some (Unreadable e) => Err e
      end
  end.

(** The keys [Scan] visits, in its order. *)
Definition scan_keys (prefix : string) (db : Bitcask) : list string :=
  filter (String.prefix prefix) (map fst (cells db)).

(** The visits of a scan, threading the state [S] the visitor closes over;
    the first error ends the scan. *)
Fixpoint visit_all (S : Type) (visit : string -> S -> option error * S)
  (keys : list string) (s : S) : option error * S :=
  match keys with
  | [] => (None, s)
  | k :: keys' =>
      match visit k s with
      | (Some e, s') => (Some e, s')
      | (None, s') => visit_all visit keys' s'
      end
  end.

Definition Scan (S : Type) (prefix : string)
  (visit : string -> S -> option error * S) (db : Bitcask) (s : S)
  : option error * S :=
  match fault db with
  | Some e => (Some e, s)
  | None => visit_all visit (scan_keys prefix db) s
  end.

(** Keys strictly ascending: what a store built by [Put] alone satisfies. *)
Fixpoint ascending (l : list (string * cell)) : bool :=
  match l with
  | [] => true
  | (k, _) :: l' =>
      match l' with
      | [] => true
      | (k', _) :: _ => String.ltb k k' && ascending l'
      end
  end.

(** ** Data of the handlers *)

(** history.go: [type HistoryEntry struct]. *)
Record HistoryEntry : Type := {
  Timestamp : Z;
  Command : string;
  Value : string
}.

(** history.go: [type HTMLHistoryEntry struct]. *)
Record HTMLHistoryEntry : Type := {
  When : string;
  What : string
}.

(** [type Command interface]: a built-in command is its methods.  What [Exec]
    writes to the response stays inside the command; its lasting effect goes
    through the store. *)
Module Command.
Record t : Type := {
  Name : string;
  Exec : list string -> Bitcask -> option error * Bitcask
}.
End Command.

(** [type Bookmark struct]: a name and a URL template. *)
Module Bookmark.
Record t : Type := {
  name : string;
  url : string
}.
Definition Name (b : t) : string := name b.
End Bookmark.

(** The fields of [Config] and of [Server] the handlers read. *)
Record Config : Type := { URL : string }.
Record Server : Type := { config : Config }.

(** The request as [IndexHandler] reads it: [r.URL.Query().Get("q")],
    [r.FormValue("q")], [p.ByName("command")] and [p.ByName("args")]. *)
Record Request : Type := {
  query_q : string;
  form_q : string;
  param_command : string;
  param_args : string
}.

Definition StatusFound : Z := 302.
Definition StatusBadRequest : Z := 400.
Definition StatusInternalServerError : Z := 500.

(** What is done with the [http.ResponseWriter], call by call.  The two
    [Exec] methods are handed the writer: their call is one event. *)
Inductive Response : Type :=
| Render (name : string)
| RenderHistory (Entries : list HTMLHistoryEntry)
| CommandExec (name : string) (args : list string)
| BookmarkExec (name : string) (q : string)
| HttpError (msg : string) (code : Z)
| HttpRedirect (url : string) (code : Z)
| WriteHeader (code : Z).

(** The state a request runs in: the store, the number of clock readings
    taken so far, the response, the logger's lines and the counters. *)
Record World : Type := {
  db : Bitcask;
  ticks : nat;
  w : list Response;
  logged : list string;
  counters : list string
}.

(** What the handlers take from outside the server and history.go: the wall
    clock ([UnixNano n] is the reading of the [n]-th [time.Now().UnixNano()]),
    [json.Marshal] and [json.Unmarshal] at [HistoryEntry], [fmt.Sprintf] with
    one string operand, [time.Unix(0, ts).Format(time.StampMilli)], and the
    table [commands] of the built-in commands. *)
Class Env : Type := {
  UnixNano : nat -> Z;
  json_Marshal : HistoryEntry -> result bytes;
  json_Unmarshal : bytes -> result HistoryEntry;
  Sprintf : string -> string -> string;
  FormatStampMilli : Z -> string;
  commands : list (string * Command.t)
}.

(** ** A state monad over [World] *)

Definition M (A : Type) : Type := World -> A * World.

Definition ret (A : Type) (a : A) : M A := fun s => (a, s).
Definition bind (A B : Type) (m : M A) (k : A -> M B) : M B :=
  fun s => let (a, s') := m s in k a s'.

Declare Scope go_scope.
Delimit Scope go_scope with go.
Notation "x <- m ;; k" := (bind m (fun x => k))
  (at level 61, m at next level, right associativity) : go_scope.
Notation "m ;;; k" := (bind m (fun _ => k))
  (at level 61, right associativity) : go_scope.
Local Open Scope go_scope.

Definition skip : M unit := ret tt.

(** A call on the response writer. *)
Definition respond (e : Response) : M unit :=
  fun s => (tt, {| db := db s; ticks := ticks s; w := w s ++ [e];
                   logged := logged s; counters := counters s |}).

(** [s.logger.Println(err)]. *)
Definition Println (line : string) : M unit :=
  fun s => (tt, {| db := db s; ticks := ticks s; w := w s;
                   logged := logged s ++ [line]; counters := counters s |}).

(** [s.counters.Inc(name)]. *)
Definition Inc (name : string) : M unit :=
  fun s => (tt, {| db := db s; ticks := ticks s; w := w s;
                   logged := logged s; counters := counters s ++ [name] |}).

(** An operation on the store handle [db]. *)
Definition on_db (A : Type) (op : Bitcask -> A * Bitcask) : M A :=
  fun s => let (a, d) := op (db s) in
           (a, {| db := d; ticks := ticks s; w := w s;
                  logged := logged s; counters := counters s |}).

Definition db_Put (key : string) (value : bytes) : M (option error) :=
  on_db (Put key value).

Definition db_Get (key : string) : M (result bytes) :=
  on_db (fun d => (Get key d, d)).

Section Handlers.

Context {env : Env}.

(** [time.Now().UnixNano()]: the next reading of the clock. *)
Definition time_Now_UnixNano : M Z :=
  fun s => (UnixNano (ticks s),
            {| db := db s; ticks := S (ticks s); w := w s;
               logged := logged s; counters := counters s |}).

(** ** history.go *)

Definition BuildHistoryKey (timestamp : Z) : string :=
  "history_" ++ Go.fmt_d timestamp.

Definition AddHistoryEntry (command value : string) : M (option error) :=
  ts <- time_Now_UnixNano ;;
  let historyEntry :=
    {| Timestamp := ts; Command := command; Value := value |} in
  let key := BuildHistoryKey ts in
  match json_Marshal historyEntry with
  | Err err => ret (Some err)
  | Ok b =>
      err <- db_Put key b ;;
      match err with
      | Some err => ret (Some err)
      | None => ret None
      end
  end.

(** ** The registry and the bookmarks *)

(** Modelled from the spec: [LookupCommand] is not among the sources; by the
    spec (4.2) it is the exact, case-sensitive lookup of the name in the
    table of commands, [nil] when absent. *)
Fixpoint assoc (name : string) (table : list (string * Command.t))
  : option Command.t :=
  match table with
  | [] => None
  | (k, c) :: table' => if String.eqb name k then Some c else assoc name table'
  end.

Definition LookupCommand (name : string) : option Command.t :=
  assoc name commands.

(** Modelled from the spec: [LookupBookmark] is not among the sources; by the
    spec (4.3) it reads the key ["bookmark_"+name] from the store, the value
    being the URL template, and a failed read is "not found". *)
Definition LookupBookmark (name : string) : M (option Bookmark.t) :=
  val <- db_Get ("bookmark_" ++ name) ;;
  match val with
  | Err _ => ret None
  | Ok v => ret (Some {| Bookmark.name := name; Bookmark.url := v |})
  end.

(** [command.Exec(w, r, args)]. *)
Definition command_Exec (command : Command.t) (args : list string)
  : M (option error) :=
  respond (CommandExec (Command.Name command) args) ;;;
  on_db (Command.Exec command args).

(** [bookmark.Exec(w, r, q)]; it returns nothing. *)
Definition bookmark_Exec (bookmark : Bookmark.t) (q : string) : M unit :=
  respond (BookmarkExec (Bookmark.Name bookmark) q).

(** ** The server: IndexHandler *)

(** [s.render(name, w, nil)]. *)
Definition render (name : string) : M unit := respond (Render name).

(** Lines 107 to 123: the query text [q], the token [cmd] and [args]. *)
Definition parse (r : Request) : string * string * list string :=
  let q := query_q r in
  let q := if String.eqb q "" then form_q r else q in
  if negb (String.eqb q "") then
    match Go.Split q " " with
    | cmd :: args => (q, cmd, args)
    | [] => (q, "", [])
    end
  else (q, param_command r, Go.Split (param_args r) "/").

(** Lines 125 to 164: what is done with the token. *)
Definition dispatch (s : Server) (q cmd : string) (args : list string)
  : M unit :=
  if String.eqb cmd "" then
    render "index"
  else
    match LookupCommand cmd with
    | Some command =>
        err <- command_Exec command args ;;
        match err with
        | Some err =>
            respond (HttpError
                       ("Error processing command " ++ Command.Name command
                          ++ ": " ++ err)
                       StatusInternalServerError)
        | None => skip
        end ;;;
        err <- AddHistoryEntry (Command.Name command) "" ;;
        match err with
        | Some _ => respond (WriteHeader StatusInternalServerError)
        | None => skip
        end
    | None =>
        found <- LookupBookmark cmd ;;
        match found with
        | Some bookmark =>
            let q := Go.Join args " " in
            bookmark_Exec bookmark q ;;;
            err <- AddHistoryEntry (Bookmark.Name bookmark) q ;;
            match err with
            | Some _ => respond (WriteHeader StatusInternalServerError)
            | None => skip
            end
        | None =>
            if negb (String.eqb (URL (config s)) "") then
              let url := URL (config s) in
              let url := if negb (String.eqb q "") then Sprintf url q
                         else url in
              respond (HttpRedirect url StatusFound)
            else
              respond (HttpError ("Invalid Command: " ++ cmd)
                         StatusBadRequest)
        end
    end.

Definition IndexHandler (s : Server) (r : Request) : M unit :=
  Inc "n_index" ;;;
  let '(q, cmd, args) := parse r in
  dispatch s q cmd args.

(** ** The server: HistoryHandler *)

(** The visitor of the scan (lines 223 to 237): a failed read and a failed
    decoding are logged, and the visit returns [nil] all the same. *)
Definition visit_history (key : string)
  (st : World * list HistoryEntry) : option error * (World * list HistoryEntry) :=
  let (s, allEntries) := st in
  match db_Get key s with
  | (Err err, s) => let (_, s) := Println err s in (None, (s, allEntries))
  | (Ok val, s) =>
      match json_Unmarshal val with
      | Err err => let (_, s) := Println err s in (None, (s, allEntries))
      | Ok entry => (None, (s, (allEntries ++ [entry])%list))
      end
  end.

(** Lines 242 to 246: [for i := len(allEntries) - 1; i >= 0; i--], the
    entries appended from the last index down; [n] is [i + 1]. *)
Fixpoint reverse_from (allEntries : list HistoryEntry) (n : nat)
  (allEntriesReversed : list HistoryEntry) : list HistoryEntry :=
  match n with
  | O => allEntriesReversed
  | S i =>
      match nth_error allEntries i with
      | Some entry => reverse_from allEntries i (allEntriesReversed ++ [entry])%list
      | None => allEntriesReversed
      end
  end.

(** Lines 222 to 246: the entries of the history, latest first, or [None]
    after the status 500 of a failed scan. *)
Definition listHistory : M (option (list HistoryEntry)) :=
  fun s =>
    let (err, st) :=
      Scan "history_" visit_history (db s) (s, @nil HistoryEntry) in
    let (s, allEntries) := st in
    match err with
    | Some _ =>
        let (_, s) := respond (WriteHeader StatusInternalServerError) s in
        (None, s)
    | None =>
        (Some (reverse_from allEntries (List.length allEntries) []), s)
    end.

Definition html_entry (entry : HistoryEntry) : HTMLHistoryEntry :=
  {| When := FormatStampMilli (Timestamp entry);
     What := Command entry ++ " " ++ Value entry |}.

Definition HistoryHandler (s : Server) : M unit :=
  Inc "n_history" ;;;
  listed <- listHistory ;;
  match listed with
  | None => skip
  | Some allEntriesReversed =>
      respond (RenderHistory (map html_entry allEntriesReversed))
  end.

End Handlers.

(** ** A concrete environment

    A codec in the format of encoding/json for [HistoryEntry], with the
    escapes of the quote and of the backslash, a [Sprintf] that fills the
    first [%s], and a table of two commands.  It instantiates [Env] wherever
    a statement is evaluated on concrete data. *)

Module Ref.

Definition quote : ascii := ascii_of_N 34.
Definition backslash : ascii := ascii_of_N 92.
Definition quoted (s : string) : string :=
  String quote (s ++ String quote "").

Fixpoint escape (s : string) : string :=
  match s with
  | EmptyString => EmptyString
  | String c s' =>
      if Ascii.eqb c quote || Ascii.eqb c backslash
      then String backslash (String c (escape s'))
      else String c (escape s')
  end.

Definition Marshal (e : HistoryEntry) : result bytes :=
  Ok ("{" ++ quoted "timestamp" ++ ":" ++ Go.fmt_d (Timestamp e)
      ++ "," ++ quoted "command" ++ ":" ++ quoted (escape (Command e))
      ++ "," ++ quoted "value" ++ ":" ++ quoted (escape (Value e)) ++ "}").

(** [strip p s]: what follows [p] in [s]. *)
Fixpoint strip (p s : string) : option string :=
  match p, s with
  | EmptyString, _ => Some s
  | String a p', String b s' => if Ascii.eqb a b then strip p' s' else None
  | String _ _, EmptyString => None
  end.

Definition is_digit (c : ascii) : bool :=
  (48 <=? N_of_ascii c)%N && (N_of_ascii c <=? 57)%N.

Fixpoint read_digits (s : string) (acc : Z) (seen : bool)
  : option (Z * string) :=
  match s with
  | String c s' =>
      if is_digit c
      then read_digits s' (10 * acc + (Z.of_N (N_of_ascii c) - 48)) true
      else if seen then Some (acc, s) else None
  | EmptyString => if seen then Some (acc, s) else None
  end.

Definition read_int (s : string) : option (Z * string) :=
  match s with
  | String "-" s' =>
      match read_digits s' 0 false with
      | Some (n, rest) => Some (- n, rest)
      | None => None
      end
  | _ => read_digits s 0 false
  end.

(** The characters up to the closing quote, escapes undone. *)
Fixpoint read_chars (s : string) : option (string * string) :=
  match s with
  | EmptyString => None
  | String c s' =>
      if Ascii.eqb c quote then Some (EmptyString, s')
      else if Ascii.eqb c backslash then
        match s' with
        | String d s'' =>
            match read_chars s'' with
            | Some (t, rest) => Some (String d t, rest)
            | None => None
            end
        | EmptyString => None
        end
      else
        match read_chars s' with
        | Some (t, rest) => Some (String c t, rest)
        | None => None
        end
  end.

Definition syntax_error : error := "invalid character in JSON input".

Definition Unmarshal (b : bytes) : result HistoryEntry :=
  match strip ("{" ++ quoted "timestamp" ++ ":") b with
  | None => Err syntax_error
  | Some b1 =>
  match read_int b1 with
  | None => Err syntax_error
  | Some (ts, b2) =>
  match strip ("," ++ quoted "command" ++ ":" ++ String quote "") b2 with
  | None => Err syntax_error
  | Some b3 =>
  match read_chars b3 with
  | None => Err syntax_error
  | Some (command, b4) =>
  match strip ("," ++ quoted "value" ++ ":" ++ String quote "") b4 with
  | None => Err syntax_error
  | Some b5 =>
  match read_chars b5 with
  | Some (value, "}") =>
      Ok {| Timestamp := ts; Command := command; Value := value |}
  | _ => Err syntax_error
  end end end end end end.

(** The first [%s] of the format replaced by the operand. *)
Fixpoint fill (format operand : string) : string :=
  match format with
  | String "%" (String "s" rest) => operand ++ rest
  | String c rest => String c (fill rest operand)
  | EmptyString => EmptyString
  end.

(** A command that does nothing and one whose execution fails. *)
Definition ping : Command.t :=
  {| Command.Name := "ping"; Command.Exec := fun _ d => (None, d) |}.
Definition date : Command.t :=
  {| Command.Name := "date";
     Command.Exec := fun _ d => (Some "date: unknown zone", d) |}.

(** A clock that reads [t0], [t0 + 1], ... *)
Definition steady (t0 : Z) (n : nat) : Z := t0 + Z.of_nat n.

(** A clock that gives the listed readings, then stands still at [0]. *)
Definition readings (l : list Z) (n : nat) : Z := nth n l 0.

Definition env_with (clock : nat -> Z) : Env :=
  {| UnixNano := clock;
     json_Marshal := Marshal;
     json_Unmarshal := Unmarshal;
     Sprintf := fill;
     FormatStampMilli := Go.fmt_d;
     commands := [("ping", ping); ("date", date)] |}.

(** The same environment with a [json.Marshal] that fails. *)
Definition env_unmarshalable (clock : nat -> Z) : Env :=
  {| UnixNano := clock;
     json_Marshal := fun _ => Err "json: unsupported value";
     json_Unmarshal := Unmarshal;
     Sprintf := fill;
     FormatStampMilli := Go.fmt_d;
     commands := [("ping", ping); ("date", date)] |}.

Definition open_store (l : list (string * cell)) : Bitcask :=
  {| cells := l; fault := None |}.

Definition world_of (d : Bitcask) : World :=
  {| db := d; ticks := 0; w := []; logged := []; counters := [] |}.

(** A server with the fallback of the original configuration and one with
    none. *)
Definition srv : Server :=
  {| config := {| URL := "https://www.google.com/search?q=%s&btnK" |} |}.
Definition srv_no_fallback : Server := {| config := {| URL := "" |} |}.

(** A store in which the bookmark [ping] shadows nothing: the command of
    that name comes first. *)
Definition bookmarks : Bitcask :=
  open_store
    [("bookmark_gh", Readable "https://github.com/search?q=%s");
     ("bookmark_ping", Readable "https://example.com/ping?host=%s")].

Definition get (q : string) : Request :=
  {| query_q := q; form_q := ""; param_command := ""; param_args := "" |}.

(** Three records of the history: the second is not JSON in [damaged] and
    cannot be read back in [unreadable]. *)
Definition entry1 : HistoryEntry :=
  {| Timestamp := 1700000000000000001; Command := "gh"; Value := "golang" |}.
Definition entry3 : HistoryEntry :=
  {| Timestamp := 1700000000000000003; Command := "ping"; Value := "" |}.

Definition json_of (e : HistoryEntry) : bytes :=
  match Marshal e with Ok b => b | Err _ => "" end.

Definition damaged : Bitcask :=
  open_store
    [("bookmark_gh", Readable "https://github.com/search?q=%s");
     ("history_1700000000000000001", Readable (json_of entry1));
     ("history_1700000000000000002", Readable "{timestamp");
     ("history_1700000000000000003", Readable (json_of entry3))].

Definition unreadable : Bitcask :=
  open_store
    [("bookmark_gh", Readable "https://github.com/search?q=%s");
     ("history_1700000000000000001", Readable (json_of entry1));
     ("history_1700000000000000002", Unreadable "checksum failed");
     ("history_1700000000000000003", Readable (json_of entry3))].

Definition closed : Bitcask :=
  {| cells := cells damaged; fault := Some "error: database is closed" |}.

(** A store with one entry of an earlier day. *)
Definition entry0 : HistoryEntry :=
  {| Timestamp := 1600000000000000000; Command := "gh"; Value := "rocq" |}.

Definition earlier : Bitcask :=
  open_store
    [("bookmark_gh", Readable "https://github.com/search?q=%s");
     ("history_1600000000000000000", Readable (json_of entry0))].

End Ref.

(** ** The listing as a function of the store

    What the scan of [HistoryHandler] collects, key by key: [decode] is the
    read of a key followed by the decoding of its value. *)

Section Listing.

Context {env : Env}.

Definition decode (d : Bitcask) (key : string) : result HistoryEntry :=
  match Get key d with
  | Err e => Err e
  | Ok val => json_Unmarshal val
  end.

(** The entries of the keys that decode, in the order of the keys. *)
Fixpoint decoded (d : Bitcask) (keys : list string) : list HistoryEntry :=
  match keys with
  | [] => []
  | k :: keys' =>
      match decode d k with
      | Ok entry => entry :: decoded d keys'
      | Err _ => decoded d keys'
      end
  end.

(** The errors of the keys that do not, in the order of the keys. *)
Fixpoint failures (d : Bitcask) (keys : list string) : list error :=
  match keys with
  | [] => []
  | k :: keys' =>
      match decode d k with
      | Ok _ => failures d keys'
      | Err e => e :: failures d keys'
      end
  end.

(** The serialization of [e] succeeds and decodes to [e] again. *)
Definition roundtrip (e : HistoryEntry) : Prop :=
  exists b, json_Marshal e = Ok b /\ json_Unmarshal b = Ok e.

(** Every entry of the history was written by an append of this run: its
    timestamp is one of the readings taken so far. *)
Definition written_by_appends (s : World) : Prop :=
  forall k e,
    In k (scan_keys "history_" (db s)) -> decode (db s) k = Ok e ->
    exists i, (i < ticks s)%nat /\ Timestamp e = UnixNano i.

End Listing.

(** The world with more lines logged, with more written to the response,
    with another store, and after one more reading of the clock. *)
Definition with_logged (s : World) (lines : list string) : World :=
  {| db := db s; ticks := ticks s; w := w s;
     logged := logged s ++ lines; counters := counters s |}.

Definition with_response (s : World) (events : list Response) : World :=
  {| db := db s; ticks := ticks s; w := w s ++ events;
     logged := logged s; counters := counters s |}.

Definition with_db (s : World) (d : Bitcask) : World :=
  {| db := d; ticks := ticks s; w := w s;
     logged := logged s; counters := counters s |}.

Definition tick (s : World) : World :=
  {| db := db s; ticks := S (ticks s); w := w s;
     logged := logged s; counters := counters s |}.

Definition with_counter (s : World) (name : string) : World :=
  {| db := db s; ticks := ticks s; w := w s;
     logged := logged s; counters := counters s ++ [name] |}.

(** The response of a command's error, if any. *)
Definition report (command : Command.t) (err : option error) (s : World)
  : World :=
  match err with
  | Some e =>
      with_response s
        [HttpError ("Error processing command " ++ Command.Name command
                      ++ ": " ++ e) StatusInternalServerError]
  | None => s
  end.

(** The status 500 of a failed append, if any. *)
Definition flag (r : option error * World) : World :=
  match fst r with
  | Some _ => with_response (snd r) [WriteHeader StatusInternalServerError]
  | None => snd r
  end.

(** ** Resolution of a token

    The four outcomes the spec (4.4) distinguishes before the fallback, as
    the lookups of [dispatch] decide them. *)

Inductive Resolution : Type :=
| ShowIndex
| RunCommand (command : Command.t)
| RunBookmark (bookmark : Bookmark.t)
| Unmatched.

Definition Resolve {env : Env} (cmd : string) (s : World) : Resolution :=
  if String.eqb cmd "" then ShowIndex
  else match LookupCommand cmd with
       | Some command => RunCommand command
       | None =>
           match fst (LookupBookmark cmd s) with
           | Some bookmark => RunBookmark bookmark
           | None => Unmatched
           end
       end.

(** ** The other handlers of the server

    [HelpHandler], [ListHandler] and [Shutdown], with the parts of the Go
    library they add: [strings.TrimPrefix], [sort.Sort] on a
    [sort.StringSlice], and the standard logger of [log.Printf], which is
    not the server's own logger. *)

Module GoLib.

(** [s[n:]]. *)
Fixpoint drop (n : nat) (s : string) : string :=
  match n, s with
  | O, _ => s
  | S n', String _ s' => drop n' s'
  | S _, EmptyString => EmptyString
  end.

(** [strings.TrimPrefix(s, prefix)]. *)
Definition TrimPrefix (s prefix : string) : string :=
  if String.prefix prefix s then drop (String.length prefix) s else s.

(** [sort.Sort(sort.StringSlice(names))]: the names in ascending byte
    order.  There is one such arrangement of a slice of strings, whatever
    the algorithm; here it is built by insertion. *)
Fixpoint insert_name (x : string) (l : list string) : list string :=
  match l with
  | [] => [x]
  | y :: l' => if String.leb x y then x :: l else y :: insert_name x l'
  end.

Definition Sort (names : list string) : list string :=
  fold_right insert_name [] names.

(** Whether the byte [c] occurs in [s]. *)
Fixpoint occurs (c : ascii) (s : string) : bool :=
  match s with
  | EmptyString => false
  | String a s' => Ascii.eqb a c || occurs c s'
  end.

End GoLib.

(** Modelled from the spec: [db.Close()] belongs to the store library; by
    the spec (4.1) it releases the handle, and every later operation fails
    with a Closed error.  On a handle that already fails it returns that
    failure. *)
Definition ErrDatabaseClosed : error := "error: database is closed".

Definition Close (d : Bitcask) : option error * Bitcask :=
  match fault d with
  | Some e => (Some e, d)
  | None => (None, {| cells := cells d; fault := Some ErrDatabaseClosed |})
  end.

(** The process: the state of a request and the lines of the standard
    logger. *)
Record Process : Type := {
  world : World;
  stdlog : list string
}.

Definition P (A : Type) : Type := Process -> A * Process.

Definition retP (A : Type) (a : A) : P A := fun p => (a, p).
Definition bindP (A B : Type) (m : P A) (k : A -> P B) : P B :=
  fun p => let (a, p') := m p in k a p'.

(** A step on the state of the request. *)
Definition lift (A : Type) (m : M A) : P A :=
  fun p => let (a, s) := m (world p) in
           (a, {| world := s; stdlog := stdlog p |}).

(** [log.Printf] of an already formatted line. *)
Definition log_Printf (line : string) : P unit :=
  fun p => (tt, {| world := world p; stdlog := (stdlog p ++ [line])%list |}).

Declare Scope proc_scope.
Delimit Scope proc_scope with proc.
Notation "x <- m ;; k" := (bindP m (fun x => k))
  (at level 61, m at next level, right associativity) : proc_scope.
Notation "m ;;; k" := (bindP m (fun _ => k))
  (at level 61, right associativity) : proc_scope.

Section OtherHandlers.

Context {env : Env}.

Local Open Scope proc_scope.


(** The visitor of the scan of [ListHandler] (lines 188 to 196): a failed
    read is returned, which ends the scan. *)
Definition visit_bookmark (key : string) (st : World * list Bookmark.t)
  : option error * (World * list Bookmark.t) :=
  let (s, bk) := st in
  match db_Get key s with
  | (Err err, s) => (Some err, (s, bk))
  | (Ok val, s) =>
      let name := GoLib.TrimPrefix key "bookmark_" in
      (None,
       (s, (bk ++ [{| Bookmark.name := name; Bookmark.url := val |}])%list))
  end.

(** Lines 187 to 196: the scan and what it has collected when it ends. *)
Definition scanBookmarks : M (option error * list Bookmark.t) :=
  fun s =>
    let (err, st) :=
      Scan "bookmark_" visit_bookmark (db s) (s, @nil Bookmark.t) in
    let (s, bk) := st in
    ((err, bk), s).

(** Lines 201 to 208: the keys of the table [commands] in the order the
    [range] gives them (the order of [table] stands for it), sorted, and
    then [commands[name]] for each, which is [nil] for a name that is not a
    key. *)
Definition listCommands (table : list (string * Command.t))
  : list (option Command.t) :=
  let names := map fst table in
  let names := GoLib.Sort names in
  map (fun name => assoc name table) names.

(** [ListHandler].  The page is [Render "list"] on the response; the data
    handed to the template, ["Bookmarks"] and ["Commands"], is the
    result. *)
Definition ListHandler (s : Server)
  : P (list Bookmark.t * list (option Command.t)) :=
  lift (Inc "n_list") ;;;
  scanned <- lift scanBookmarks ;;
  let (err, bk) := scanned in
  match err with
  | Some err => log_Printf ("error reading list of bookmarks: " ++ err)
  | None => retP tt
  end ;;;
  let cmd := listCommands commands in
  lift (render "list") ;;;
  retP (bk, cmd).

(** [Shutdown]; [stopped] is what [s.server.Shutdown(ctx)] returns. *)
Definition Shutdown (stopped : option error) : P (option error) :=
  match stopped with
  | Some err =>
      log_Printf ("error shutting down server: " ++ err) ;;;
      retP (Some err)
  | None =>
      closed <- lift (on_db Close) ;;
      match closed with
      | Some err =>
          log_Printf ("error closing store: " ++ err) ;;;
          retP (Some err)
      | None => retP None
      end
  end.

End OtherHandlers.

(** What the scan of [ListHandler] collects from the keys it is given: the
    bookmarks of the keys up to the first that cannot be read, and the
    error of that one. *)
Fixpoint collect (d : Bitcask) (keys : list string)
  : option error * list Bookmark.t :=
  match keys with
  | [] => (None, [])
  | k :: keys' =>
      match Get k d with
      | Err e => (Some e, [])
      | Ok val =>
          let (err, bk) := collect d keys' in
          (err,
           {| Bookmark.name := GoLib.TrimPrefix k "bookmark_";
              Bookmark.url := val |} :: bk)
      end
  end.

(** The same for the scan of a store: a handle that fails gives its error
    and no bookmark. *)
Definition scanned (d : Bitcask) : option error * list Bookmark.t :=
  match fault d with
  | Some e => (Some e, [])
  | None => collect d (scan_keys "bookmark_" d)
  end.

(** The process of a request that has logged nothing yet. *)
Definition process_of (s : World) : Process :=
  {| world := s; stdlog := [] |}.

(** A store written by appends alone, at readings of [n + 1] digits: its
    keys ascend, and every record of the history decodes to an entry that
    has the timestamp of its key. *)
Definition history_wf {env : Env} (n : nat) (d : Bitcask) : Prop :=
  ascending (cells d) = true
  /\ forall k, In k (scan_keys "history_" d) ->
       exists e, decode d k = Ok e
                 /\ k = BuildHistoryKey (Timestamp e)
                 /\ 10 ^ Z.of_nat n <= Timestamp e < 10 ^ Z.of_nat (S n).

(** Timestamps strictly descending along a listing. *)
Fixpoint descending (l : list HistoryEntry) : Prop :=
  match l with
  | [] => True
  | e :: l' => Forall (fun e' => Timestamp e' < Timestamp e) l' /\ descending l'
  end.

(** Concrete data for the other handlers. *)
Module Sample.


(** The environment of [Ref] with the table of commands traversed the
    other way round. *)
Definition env_reversed (clock : nat -> Z) : Env :=
  {| UnixNano := clock;
     json_Marshal := Ref.Marshal;
     json_Unmarshal := Ref.Unmarshal;
     Sprintf := Ref.fill;
     FormatStampMilli := Go.fmt_d;
     commands := [("date", Ref.date); ("ping", Ref.ping)] |}.

End Sample.

(** * Properties *)

Local Open Scope go_scope.

(** ** Byte order on keys *)

Section KeyOrder.

Lemma ascii_compare_refl a : Ascii.compare a a = Eq.
Proof. unfold Ascii.compare. apply N.compare_refl. Qed.

Lemma ascii_compare_trans a b c :
  Ascii.compare a b = Lt -> Ascii.compare b c = Lt -> Ascii.compare a c = Lt.
Proof.
  unfold Ascii.compare. rewrite !N.compare_lt_iff. apply N.lt_trans.
Qed.

Lemma compare_refl s : String.compare s s = Eq.
Proof.
  induction s as [|a s IH]; simpl; [reflexivity|].
  now rewrite ascii_compare_refl.
Qed.

Lemma compare_trans s1 : forall s2 s3,
  String.compare s1 s2 = Lt -> String.compare s2 s3 = Lt ->
  String.compare s1 s3 = Lt.
Proof.
  induction s1 as [|a s1 IH]; intros [|b s2] [|c s3]; simpl;
    try discriminate; try reflexivity.
  destruct (Ascii.compare a b) eqn:Hab; try discriminate;
    destruct (Ascii.compare b c) eqn:Hbc; try discriminate; intros H1 H2.
  - apply Ascii.compare_eq_iff in Hab, Hbc. subst.
    rewrite ascii_compare_refl. eauto.
  - apply Ascii.compare_eq_iff in Hab. subst. now rewrite Hbc.
  - apply Ascii.compare_eq_iff in Hbc. subst. now rewrite Hab.
  - now rewrite (ascii_compare_trans _ _ _ Hab Hbc).
Qed.

Lemma compare_Gt_Lt s1 s2 :
  String.compare s1 s2 = Gt <-> String.compare s2 s1 = Lt.
Proof.
  rewrite (String.compare_antisym s2 s1).
  destruct (String.compare s1 s2); simpl; split; congruence.
Qed.

Lemma ltb_lt s1 s2 : String.ltb s1 s2 = true <-> String.compare s1 s2 = Lt.
Proof.
  unfold String.ltb. destruct (String.compare s1 s2); split; congruence.
Qed.

Lemma ltb_irrefl s : String.ltb s s = false.
Proof. unfold String.ltb. now rewrite compare_refl. Qed.

Lemma ltb_trans s1 s2 s3 :
  String.ltb s1 s2 = true -> String.ltb s2 s3 = true ->
  String.ltb s1 s3 = true.
Proof. rewrite !ltb_lt. apply compare_trans. Qed.

Lemma ltb_neq s1 s2 : String.ltb s1 s2 = true -> s1 <> s2.
Proof. intros H ->. rewrite ltb_irrefl in H. discriminate. Qed.

(** A common prefix does not take part in the comparison. *)
Lemma compare_app_same p s1 s2 :
  String.compare (p ++ s1) (p ++ s2) = String.compare s1 s2.
Proof.
  induction p as [|a p IH]; simpl; [reflexivity|].
  now rewrite ascii_compare_refl.
Qed.

(** Prefixes of equal length decide the comparison. *)
Lemma compare_app_lt p : forall q s1 s2,
  String.length p = String.length q ->
  String.compare p q = Lt ->
  String.compare (p ++ s1) (q ++ s2) = Lt.
Proof.
  induction p as [|a p IH]; intros [|b q] s1 s2; simpl;
    try discriminate.
  intros Hlen. injection Hlen as Hlen.
  destruct (Ascii.compare a b); try discriminate; auto.
Qed.

Lemma prefix_app p s : String.prefix p (p ++ s) = true.
Proof.
  induction p as [|a p IH]; simpl; [now destruct s|].
  destruct (ascii_dec a a); [assumption|congruence].
Qed.

End KeyOrder.

(** ** The store *)

Section StoreFacts.

Lemma lookup_insert_same key c l : lookup key (insert key c l) = Some c.
Proof.
  induction l as [|[k c'] l IH]; simpl.
  - now rewrite String.eqb_refl.
  - destruct (String.compare key k) eqn:Hc; simpl.
    + now rewrite String.eqb_refl.
    + now rewrite String.eqb_refl.
    + destruct (String.eqb_spec key k) as [->|_]; [|exact IH].
      rewrite compare_refl in Hc. discriminate.
Qed.

Lemma lookup_insert_other key c l k' :
  k' <> key -> lookup k' (insert key c l) = lookup k' l.
Proof.
  intros Hne. induction l as [|[k c'] l IH]; simpl.
  - destruct (String.eqb_spec k' key); [contradiction|reflexivity].
  - destruct (String.compare key k) eqn:Hc; simpl.
    + apply String.compare_eq_iff in Hc. subst k.
      destruct (String.eqb_spec k' key); [contradiction|reflexivity].
    + destruct (String.eqb_spec k' key); [contradiction|reflexivity].
    + now rewrite IH.
Qed.

Lemma ascending_tail k c l : ascending ((k, c) :: l) = true -> ascending l = true.
Proof.
  simpl. destruct l as [|[k' c'] l]; [reflexivity|].
  intros H. now apply andb_prop in H.
Qed.

(** In an ascending store every later key is above the first. *)
Lemma ascending_head k c l :
  ascending ((k, c) :: l) = true ->
  Forall (fun k' => String.ltb k k' = true) (map fst l).
Proof.
  revert k c. induction l as [|[k' c'] l IH]; intros k c H; simpl.
  - constructor.
  - simpl in H. apply andb_prop in H. destruct H as [Hk Hl].
    constructor; [exact Hk|].
    specialize (IH k' c' Hl).
    eapply Forall_impl; [|exact IH].
    intros k'' Hk''. simpl in Hk''. eapply ltb_trans; eassumption.
Qed.

Lemma ascending_insert key c l :
  ascending l = true -> ascending (insert key c l) = true.
Proof.
  induction l as [|[k c'] l IH]; intros Hl; [reflexivity|].
  cbn [insert]. destruct (String.compare key k) eqn:Hc.
  - apply String.compare_eq_iff in Hc. subst k. exact Hl.
  - change (String.ltb key k && ascending ((k, c') :: l) = true).
    rewrite Hl, andb_true_r. now apply ltb_lt.
  - pose proof (ascending_tail _ _ _ Hl) as Hl'. specialize (IH Hl').
    apply compare_Gt_Lt, ltb_lt in Hc.
    destruct l as [|[k' c''] l]; simpl.
    + now rewrite Hc.
    + simpl in Hl. apply andb_prop in Hl. destruct Hl as [Hkk' _].
      cbn [insert] in IH |- *.
      destruct (String.compare key k') eqn:Hc';
        cbn [ascending] in IH |- *.
      * rewrite Hc. exact IH.
      * rewrite Hc. exact IH.
      * rewrite Hkk'. exact IH.
Qed.

(** A key above all the keys of its prefix becomes the last key of a scan
    on that prefix. *)
Lemma scan_keys_insert_last prefix key c l :
  ascending l = true ->
  String.prefix prefix key = true ->
  Forall (fun k => String.ltb k key = true)
         (filter (String.prefix prefix) (map fst l)) ->
  filter (String.prefix prefix) (map fst (insert key c l))
  = (filter (String.prefix prefix) (map fst l) ++ [key])%list.
Proof.
  intros Hasc Hp. induction l as [|[k c'] l IH]; intros Hall.
  - simpl. now rewrite Hp.
  - cbn [insert]. destruct (String.compare key k) eqn:Hc.
    + apply String.compare_eq_iff in Hc. subst k.
      simpl in Hall. rewrite Hp in Hall. inversion Hall as [|? ? Hkk _].
      rewrite ltb_irrefl in Hkk. discriminate.
    + assert (Hnone : filter (String.prefix prefix) (map fst ((k, c') :: l)) = []).
      { apply ltb_lt in Hc.
        pose proof (ascending_head _ _ _ Hasc) as Hhead.
        rewrite Forall_forall in Hall, Hhead.
        destruct (filter (String.prefix prefix) (map fst ((k, c') :: l)))
          as [|k1 rest] eqn:Hf; [reflexivity|exfalso].
        assert (Hin : In k1 (filter (String.prefix prefix)
                               (map fst ((k, c') :: l))))
          by (rewrite Hf; now left).
        pose proof (Hall k1 (or_introl eq_refl)) as Hlt.
        apply filter_In in Hin. destruct Hin as [Hin _].
        simpl in Hin. destruct Hin as [<-|Hin].
        - pose proof (ltb_trans _ _ _ Hc Hlt) as Habs.
          rewrite ltb_irrefl in Habs. discriminate.
        - pose proof (ltb_trans _ _ _ (ltb_trans _ _ _ Hc (Hhead _ Hin)) Hlt)
            as Habs.
          rewrite ltb_irrefl in Habs. discriminate. }
      rewrite Hnone. change (map fst ((key, c) :: (k, c') :: l))
        with (key :: map fst ((k, c') :: l)).
      cbn [filter]. rewrite Hp, Hnone. reflexivity.
    + change (map fst ((k, c') :: insert key c l))
        with (k :: map fst (insert key c l)).
      change (map fst ((k, c') :: l)) with (k :: map fst l) in *.
      cbn [filter] in *.
      pose proof (ascending_tail _ _ _ Hasc) as Hasc'.
      destruct (String.prefix prefix k).
      * inversion Hall; subst. rewrite IH by assumption. reflexivity.
      * now rewrite IH.
Qed.

(** The key of a [Put] is among the keys of the store. *)
Lemma insert_In key c l : In key (map fst (insert key c l)).
Proof.
  induction l as [|[k c'] l IH]; simpl; [now left|].
  destruct (String.compare key k); simpl; auto.
Qed.

End StoreFacts.

(** ** The history listing *)

Section ListingFacts.

Context {env : Env}.

Lemma with_logged_nil s : with_logged s [] = s.
Proof. destruct s. unfold with_logged. simpl. now rewrite app_nil_r. Qed.

Lemma with_logged_app s l1 l2 :
  with_logged (with_logged s l1) l2 = with_logged s (l1 ++ l2).
Proof. unfold with_logged. simpl. now rewrite app_assoc. Qed.

Lemma with_db_same s : with_db s (db s) = s.
Proof. now destruct s. Qed.

Lemma visit_history_eq key s allEntries :
  visit_history key (s, allEntries)
  = (None,
     match decode (db s) key with
     | Ok entry => (s, (allEntries ++ [entry])%list)
     | Err e => (with_logged s [e], allEntries)
     end).
Proof.
  unfold visit_history, decode, db_Get, on_db, Println.
  destruct s as [d n r lg cs]. simpl.
  destruct (Get key d) as [val|e]; [|reflexivity].
  destruct (json_Unmarshal val); reflexivity.
Qed.

(** The scan never stops early: it logs the failures and collects the
    entries that decode. *)
Lemma visit_all_history keys : forall s allEntries,
  visit_all visit_history keys (s, allEntries)
  = (None, (with_logged s (failures (db s) keys),
            (allEntries ++ decoded (db s) keys)%list)).
Proof.
  induction keys as [|k keys IH]; intros s allEntries.
  - simpl. now rewrite with_logged_nil, app_nil_r.
  - cbn [visit_all]. rewrite visit_history_eq. cbn [decoded failures].
    destruct (decode (db s) k) as [entry|e].
    + rewrite IH. now rewrite <- app_assoc.
    + rewrite IH. simpl db. now rewrite with_logged_app.
Qed.

Lemma firstn_snoc (A : Type) (l : list A) : forall i x,
  nth_error l i = Some x -> firstn (S i) l = (firstn i l ++ [x])%list.
Proof.
  induction l as [|a l IH]; intros [|i] x H; simpl in H; try discriminate.
  - now injection H as ->.
  - change (firstn (S (S i)) (a :: l)) with (a :: firstn (S i) l).
    rewrite (IH _ _ H). reflexivity.
Qed.

(** The loop from the last index down builds the reversed slice. *)
Lemma reverse_from_rev allEntries : forall n acc,
  (n <= List.length allEntries)%nat ->
  reverse_from allEntries n acc = (acc ++ rev (firstn n allEntries))%list.
Proof.
  induction n as [|i IH]; intros acc Hn.
  - simpl. now rewrite app_nil_r.
  - cbn [reverse_from].
    destruct (nth_error allEntries i) as [entry|] eqn:Hnth.
    + rewrite IH by lia. rewrite (firstn_snoc _ _ Hnth).
      rewrite rev_app_distr. simpl. now rewrite <- app_assoc.
    + apply nth_error_None in Hnth. lia.
Qed.

Lemma reverse_all allEntries :
  reverse_from allEntries (List.length allEntries) [] = rev allEntries.
Proof.
  rewrite reverse_from_rev by lia. now rewrite firstn_all.
Qed.

(** With a working handle the listing succeeds, whatever the records. *)
Lemma listHistory_open s :
  fault (db s) = None ->
  listHistory s
  = (Some (rev (decoded (db s) (scan_keys "history_" (db s)))),
     with_logged s (failures (db s) (scan_keys "history_" (db s)))).
Proof.
  intros Hf. unfold listHistory, Scan. rewrite Hf.
  rewrite visit_all_history. simpl. now rewrite reverse_all.
Qed.

Lemma listHistory_fault s e :
  fault (db s) = Some e ->
  listHistory s
  = (None, with_response s [WriteHeader StatusInternalServerError]).
Proof.
  intros Hf. unfold listHistory, Scan. rewrite Hf. reflexivity.
Qed.

Lemma decoded_app d ks1 ks2 :
  decoded d (ks1 ++ ks2) = (decoded d ks1 ++ decoded d ks2)%list.
Proof.
  induction ks1 as [|k ks1 IH]; simpl; [reflexivity|].
  destruct (decode d k); simpl; now rewrite IH.
Qed.

Lemma failures_app d ks1 ks2 :
  failures d (ks1 ++ ks2) = (failures d ks1 ++ failures d ks2)%list.
Proof.
  induction ks1 as [|k ks1 IH]; simpl; [reflexivity|].
  destruct (decode d k); simpl; now rewrite IH.
Qed.

(** Keys that all decode give their entries and no failure. *)
Lemma decoded_all d ks es :
  Forall2 (fun k e => decode d k = Ok e) ks es ->
  decoded d ks = es /\ failures d ks = [].
Proof.
  induction 1 as [|k e ks es Hk _ [IHd IHf]]; simpl; [easy|].
  rewrite Hk, IHd, IHf. easy.
Qed.

End ListingFacts.

(** ** Appending to the history *)

Section AppendFacts.

Context {env : Env}.

(** The entry an append builds from the reading [ts] of the clock. *)
Let entry_of (ts : Z) (command value : string) : HistoryEntry :=
  {| Timestamp := ts; Command := command; Value := value |}.

Lemma AddHistoryEntry_Err command value s err :
  json_Marshal (entry_of (UnixNano (ticks s)) command value) = Err err ->
  AddHistoryEntry command value s = (Some err, tick s).
Proof.
  intros Hm. unfold AddHistoryEntry, bind, time_Now_UnixNano.
  unfold entry_of in Hm. now rewrite Hm.
Qed.

Lemma AddHistoryEntry_Ok command value s b :
  json_Marshal (entry_of (UnixNano (ticks s)) command value) = Ok b ->
  AddHistoryEntry command value s
  = (fst (Put (BuildHistoryKey (UnixNano (ticks s))) b (db s)),
     with_db (tick s)
       (snd (Put (BuildHistoryKey (UnixNano (ticks s))) b (db s)))).
Proof.
  intros Hm. unfold AddHistoryEntry, bind, time_Now_UnixNano.
  unfold entry_of in Hm. rewrite Hm. unfold db_Put, on_db. simpl.
  destruct (Put (BuildHistoryKey (UnixNano (ticks s))) b (db s)) as [[e|] d];
    reflexivity.
Qed.

(** A successful append on a working handle. *)
Lemma AddHistoryEntry_stored command value s b :
  json_Marshal (entry_of (UnixNano (ticks s)) command value) = Ok b ->
  fault (db s) = None ->
  AddHistoryEntry command value s
  = (None,
     with_db (tick s)
       {| cells := insert (BuildHistoryKey (UnixNano (ticks s))) (Readable b)
                     (cells (db s));
          fault := None |}).
Proof.
  intros Hm Hf. rewrite (AddHistoryEntry_Ok _ _ _ Hm).
  unfold Put. now rewrite Hf.
Qed.

Lemma Put_other key value d k :
  k <> key ->
  lookup k (cells (snd (Put key value d))) = lookup k (cells d).
Proof.
  intros Hne. unfold Put. destruct (fault d); simpl; [reflexivity|].
  now apply lookup_insert_other.
Qed.

Lemma Put_failed key value d e :
  fst (Put key value d) = Some e -> snd (Put key value d) = d.
Proof. unfold Put. destruct (fault d); simpl; [reflexivity|discriminate]. Qed.

Lemma Put_done key value d :
  fst (Put key value d) = None ->
  Get key (snd (Put key value d)) = Ok value.
Proof.
  unfold Put, Get. destruct (fault d); simpl; [discriminate|].
  now rewrite lookup_insert_same.
Qed.

End AppendFacts.

(** ** Decimal keys *)

Section DecimalFacts.

Lemma append_assoc s1 s2 s3 : (s1 ++ s2) ++ s3 = s1 ++ (s2 ++ s3).
Proof. induction s1 as [|a s1 IH]; simpl; [reflexivity|now rewrite IH]. Qed.

Lemma fmt_digits_buf fuel : forall u buf,
  Go.fmt_digits fuel u buf = Go.fmt_digits fuel u "" ++ buf.
Proof.
  induction fuel as [|fuel IH]; intros u buf; simpl; [reflexivity|].
  destruct (u <? 10); [reflexivity|].
  rewrite IH. rewrite (IH _ (String _ "")).
  now rewrite append_assoc.
Qed.

Lemma pow10_succ (n : nat) : 10 ^ Z.of_nat (S n) = 10 * 10 ^ Z.of_nat n.
Proof. rewrite Nat2Z.inj_succ. apply Z.pow_succ_r. lia. Qed.

Lemma pow10_pos (n : nat) : 0 < 10 ^ Z.of_nat n.
Proof. apply Z.pow_pos_nonneg; lia. Qed.

Lemma append_length s1 s2 :
  String.length (s1 ++ s2) = (String.length s1 + String.length s2)%nat.
Proof. induction s1 as [|a s1 IH]; simpl; [reflexivity|now rewrite IH]. Qed.

(** A number of [n + 1] digits is printed on [n + 1] bytes. *)
Lemma fmt_digits_length (n : nat) : forall fuel u,
  (n < fuel)%nat -> 10 ^ Z.of_nat n <= u < 10 ^ Z.of_nat (S n) ->
  String.length (Go.fmt_digits fuel u "") = S n.
Proof.
  induction n as [|m IH]; intros [|fuel] u Hf Hu; try lia.
  - change (1 <= u < 10) in Hu. simpl.
    destruct (Z.ltb_spec u 10); [reflexivity|lia].
  - cbn [Go.fmt_digits].
    pose proof (pow10_succ m) as E1. pose proof (pow10_succ (S m)) as E2.
    pose proof (pow10_pos m) as Hp.
    destruct (Z.ltb_spec u 10); [lia|].
    rewrite fmt_digits_buf, append_length.
    rewrite (IH fuel (u / 10)); [simpl; lia|lia|].
    split; [apply Z.div_le_lower_bound|apply Z.div_lt_upper_bound]; lia.
Qed.

Lemma digit_lt x y :
  0 <= x -> x < y -> y < 10 ->
  Ascii.compare (Go.digit x) (Go.digit y) = Lt.
Proof.
  intros Hx Hxy Hy. unfold Ascii.compare, Go.digit.
  rewrite !N_ascii_embedding by lia. apply N.compare_lt_iff. lia.
Qed.

(** Among numbers of equally many digits the byte order of the printed
    forms is the order of the numbers. *)
Lemma fmt_digits_lt (n : nat) : forall fuel a b,
  (n < fuel)%nat -> 10 ^ Z.of_nat n <= a -> a < b ->
  b < 10 ^ Z.of_nat (S n) ->
  String.compare (Go.fmt_digits fuel a "") (Go.fmt_digits fuel b "") = Lt.
Proof.
  induction n as [|m IH]; intros [|fuel] a b Hf Ha Hab Hb; try lia.
  - change (1 <= a) in Ha. change (b < 10) in Hb. simpl.
    destruct (Z.ltb_spec a 10); [|lia]. destruct (Z.ltb_spec b 10); [|lia].
    simpl. rewrite digit_lt by lia. reflexivity.
  - cbn [Go.fmt_digits].
    pose proof (pow10_succ m) as E1. pose proof (pow10_succ (S m)) as E2.
    pose proof (pow10_pos m) as Hp.
    destruct (Z.ltb_spec a 10); [lia|]. destruct (Z.ltb_spec b 10); [lia|].
    rewrite (fmt_digits_buf fuel (a / 10)), (fmt_digits_buf fuel (b / 10)).
    assert (Hqa : 10 ^ Z.of_nat m <= a / 10)
      by (apply Z.div_le_lower_bound; lia).
    assert (Hqb : b / 10 < 10 ^ Z.of_nat (S m))
      by (apply Z.div_lt_upper_bound; lia).
    assert (Hq : a / 10 <= b / 10) by (apply Z.div_le_mono; lia).
    pose proof (Z.div_mod a 10 ltac:(lia)) as Ea.
    pose proof (Z.div_mod b 10 ltac:(lia)) as Eb.
    pose proof (Z.mod_pos_bound a 10 ltac:(lia)) as Ma.
    pose proof (Z.mod_pos_bound b 10 ltac:(lia)) as Mb.
    destruct (Z.eq_dec (a / 10) (b / 10)) as [Heq|Hne].
    + rewrite Heq, compare_app_same. simpl.
      rewrite digit_lt by lia. reflexivity.
    + apply compare_app_lt.
      * rewrite (@fmt_digits_length m), (@fmt_digits_length m);
          try reflexivity; try lia.
      * apply IH; lia.
Qed.

(** The turns the loop is given beyond the number of digits change
    nothing. *)
Lemma fmt_digits_fuel (n : nat) : forall fuel u buf,
  (n < fuel)%nat -> 0 <= u < 10 ^ Z.of_nat (S n) ->
  Go.fmt_digits fuel u buf = Go.fmt_digits (S n) u buf.
Proof.
  induction n as [|m IH]; intros [|fuel] u buf Hf Hu; try lia.
  - change (0 <= u < 10) in Hu. simpl.
    destruct (Z.ltb_spec u 10); [reflexivity|lia].
  - cbn [Go.fmt_digits].
    pose proof (pow10_succ (S m)) as E2.
    destruct (Z.ltb_spec u 10); [reflexivity|].
    apply IH; [lia|].
    split; [apply Z.div_pos|apply Z.div_lt_upper_bound]; lia.
Qed.

Lemma pow2_le_pow10 (n : nat) : 2 ^ Z.of_nat n <= 10 ^ Z.of_nat n.
Proof. apply Z.pow_le_mono_l. lia. Qed.

(** A number of [n + 1] decimal digits has more than [n] binary digits. *)
Lemma digits_le_log2 (n : nat) u :
  10 ^ Z.of_nat n <= u -> (n < S (Z.to_nat (Z.log2 u)))%nat.
Proof.
  intros Hu. pose proof (pow10_pos n) as Hp. pose proof (pow2_le_pow10 n) as H2.
  assert (Z.of_nat n <= Z.log2 u) by (apply Z.log2_le_pow2; lia).
  lia.
Qed.

Lemma fmt_d_digits (n : nat) u :
  10 ^ Z.of_nat n <= u -> u < 10 ^ Z.of_nat (S n) ->
  Go.fmt_d u = Go.fmt_digits (S n) u "".
Proof.
  intros Hlo Hhi. pose proof (pow10_pos n) as Hp. unfold Go.fmt_d.
  destruct (Z.ltb_spec u 0); [lia|]. rewrite Z.abs_eq by lia.
  apply fmt_digits_fuel; [now apply digits_le_log2|lia].
Qed.

(** The same for the keys of the history. *)
Lemma BuildHistoryKey_lt (n : nat) a b :
  10 ^ Z.of_nat n <= a -> a < b -> b < 10 ^ Z.of_nat (S n) ->
  String.ltb (BuildHistoryKey a) (BuildHistoryKey b) = true.
Proof.
  intros Ha Hab Hb.
  apply ltb_lt. unfold BuildHistoryKey. rewrite compare_app_same.
  rewrite (@fmt_d_digits n a), (@fmt_d_digits n b) by lia.
  apply (@fmt_digits_lt n); lia.
Qed.

Lemma digit_is_digit d : 0 <= d < 10 -> Ref.is_digit (Go.digit d) = true.
Proof.
  intros Hd. unfold Ref.is_digit, Go.digit.
  rewrite N_ascii_embedding by lia.
  apply andb_true_intro. split; apply N.leb_le; lia.
Qed.

Lemma digit_value d :
  0 <= d < 10 -> Z.of_N (N_of_ascii (Go.digit d)) - 48 = d.
Proof.
  intros Hd. unfold Go.digit. rewrite N_ascii_embedding by lia. lia.
Qed.

(** Reading the printed digits back gives the number. *)
Lemma read_fmt_digits fuel : forall u buf acc seen,
  0 <= u < 10 ^ Z.of_nat (S fuel) ->
  exists k : nat,
    Ref.read_digits (Go.fmt_digits (S fuel) u buf) acc seen
    = Ref.read_digits buf (acc * 10 ^ Z.of_nat k + u) true.
Proof.
  induction fuel as [|fuel IH]; intros u buf acc seen Hu;
    cbn [Go.fmt_digits]; destruct (Z.ltb_spec u 10) as [Hlt|Hge].
  - exists 1%nat. cbn [Ref.read_digits].
    rewrite digit_is_digit, digit_value by lia.
    f_equal. change (10 ^ Z.of_nat 1) with 10. lia.
  - change (0 <= u < 10) in Hu. lia.
  - exists 1%nat. cbn [Ref.read_digits].
    rewrite digit_is_digit, digit_value by lia.
    f_equal. change (10 ^ Z.of_nat 1) with 10. lia.
  - pose proof (pow10_succ (S fuel)) as E.
    destruct (IH (u / 10) (String (Go.digit (u mod 10)) buf) acc seen)
      as (k & Hk).
    { split; [apply Z.div_pos|apply Z.div_lt_upper_bound]; lia. }
    exists (S k). cbn [Go.fmt_digits] in Hk. rewrite Hk.
    cbn [Ref.read_digits].
    pose proof (Z.mod_pos_bound u 10 ltac:(lia)) as Hm.
    rewrite digit_is_digit, digit_value by lia.
    f_equal. rewrite pow10_succ.
    pose proof (Z.div_mod u 10 ltac:(lia)). lia.
Qed.

(** The loop leaves a digit in front of a digit. *)
Lemma fmt_digits_keeps_head fuel : forall u buf,
  0 <= u ->
  (exists d rest, 0 <= d < 10 /\ buf = String (Go.digit d) rest) ->
  exists d rest,
    0 <= d < 10 /\ Go.fmt_digits fuel u buf = String (Go.digit d) rest.
Proof.
  induction fuel as [|fuel IH]; intros u buf Hu Hbuf; [exact Hbuf|].
  cbn [Go.fmt_digits]. destruct (Z.ltb_spec u 10).
  - exists u, buf. split; [lia|reflexivity].
  - apply IH; [apply Z.div_pos; lia|].
    exists (u mod 10), buf. split; [|reflexivity].
    apply Z.mod_pos_bound. lia.
Qed.

(** What is printed starts with a digit. *)
Lemma fmt_digits_head fuel u buf :
  0 <= u ->
  exists d rest,
    0 <= d < 10 /\ Go.fmt_digits (S fuel) u buf = String (Go.digit d) rest.
Proof.
  intros Hu. cbn [Go.fmt_digits]. destruct (Z.ltb_spec u 10).
  - exists u, buf. split; [lia|reflexivity].
  - apply fmt_digits_keeps_head; [apply Z.div_pos; lia|].
    exists (u mod 10), buf. split; [|reflexivity].
    apply Z.mod_pos_bound. lia.
Qed.

Lemma read_int_digit d rest :
  0 <= d < 10 ->
  Ref.read_int (String (Go.digit d) rest)
  = Ref.read_digits (String (Go.digit d) rest) 0 false.
Proof.
  intros Hd.
  assert (H : d = 0 \/ d = 1 \/ d = 2 \/ d = 3 \/ d = 4 \/ d = 5 \/ d = 6
              \/ d = 7 \/ d = 8 \/ d = 9) by lia.
  repeat (destruct H as [->|H]; [reflexivity|]). now subst.
Qed.

Lemma pow10_log2 u : 0 <= u -> u < 10 ^ Z.of_nat (S (Z.to_nat (Z.log2 u))).
Proof.
  intros Hu. destruct (Z.eq_dec u 0) as [->|Hne]; [reflexivity|].
  pose proof (Z.log2_nonneg u) as Hl.
  destruct (Z.log2_spec u ltac:(lia)) as [_ Hhi].
  pose proof (pow2_le_pow10 (S (Z.to_nat (Z.log2 u)))) as H2.
  rewrite Nat2Z.inj_succ, Z2Nat.id in * by lia. lia.
Qed.

(** [fmt_d] prints the decimal numeral of its argument: the reader of the
    codec reads the number back, and nothing is left over. *)
Lemma fmt_d_read_int n : Ref.read_int (Go.fmt_d n) = Some (n, "").
Proof.
  unfold Go.fmt_d.
  set (fuel := Z.to_nat (Z.log2 (Z.abs n))).
  assert (Hu : 0 <= Z.abs n < 10 ^ Z.of_nat (S fuel))
    by (split; [lia|apply pow10_log2; lia]).
  destruct (@read_fmt_digits fuel (Z.abs n) "" 0 false Hu) as (k & Hk).
  cbn [Ref.read_digits] in Hk.
  destruct (Z.ltb_spec n 0) as [Hneg|Hpos].
  - cbn [Ref.read_int]. rewrite Hk. f_equal. f_equal. lia.
  - destruct (@fmt_digits_head fuel (Z.abs n) "" ltac:(lia))
      as (d & rest & Hd & Hs).
    rewrite Hs, read_int_digit by exact Hd. rewrite <- Hs, Hk.
    f_equal. f_equal. lia.
Qed.

Lemma BuildHistoryKey_prefix ts :
  String.prefix "history_" (BuildHistoryKey ts) = true.
Proof. apply prefix_app. Qed.

End DecimalFacts.

(** ** The dispatcher, branch by branch *)

Section DispatchFacts.

Context {env : Env}.

Lemma LookupBookmark_world name s : snd (LookupBookmark name s) = s.
Proof.
  unfold LookupBookmark, bind, db_Get, on_db, ret. destruct s as [d n r lg cs].
  simpl. destruct (Get _ d); reflexivity.
Qed.

Lemma eqb_empty cmd : cmd <> "" -> String.eqb cmd "" = false.
Proof. intros H. now apply String.eqb_neq. Qed.

Lemma dispatch_empty srv q args s :
  dispatch srv q "" args s = (tt, with_response s [Render "index"]).
Proof. reflexivity. Qed.

Lemma dispatch_command srv q cmd args s command :
  cmd <> "" -> LookupCommand cmd = Some command ->
  dispatch srv q cmd args s
  = (tt,
     flag (AddHistoryEntry (Command.Name command) ""
             (report command
                (fst (Command.Exec command args (db s)))
                (with_db
                   (with_response s
                      [CommandExec (Command.Name command) args])
                   (snd (Command.Exec command args (db s))))))).
Proof.
  intros Hne Hc. unfold dispatch. rewrite (eqb_empty Hne), Hc.
  generalize (AddHistoryEntry (Command.Name command) ""). intros add.
  unfold command_Exec, respond, on_db, flag, report, skip, ret.
  repeat unfold bind. cbn [db ticks w logged counters].
  destruct (Command.Exec command args (db s)) as [[e|] d];
    unfold with_db, with_response; cbn [db ticks w logged counters fst snd];
    match goal with |- context [add ?x] =>
      destruct (add x) as [[e'|] s'] end; reflexivity.
Qed.

Lemma dispatch_bookmark srv q cmd args s bookmark :
  cmd <> "" -> LookupCommand cmd = None ->
  fst (LookupBookmark cmd s) = Some bookmark ->
  dispatch srv q cmd args s
  = (tt,
     flag (AddHistoryEntry (Bookmark.Name bookmark) (Go.Join args " ")
             (with_response s
                [BookmarkExec (Bookmark.Name bookmark) (Go.Join args " ")]))).
Proof.
  intros Hne Hc Hb. unfold dispatch. rewrite (eqb_empty Hne), Hc.
  unfold bind at 1. pose proof (LookupBookmark_world cmd s) as Hw.
  destruct (LookupBookmark cmd s) as [found s0]. simpl in Hb, Hw. subst.
  generalize (AddHistoryEntry (Bookmark.Name bookmark) (Go.Join args " ")).
  intros add.
  unfold bookmark_Exec, respond, flag, skip, ret. repeat unfold bind.
  unfold with_response. cbn [db ticks w logged counters fst snd].
  match goal with |- context [add ?x] =>
    destruct (add x) as [[e'|] s'] end; reflexivity.
Qed.

Lemma dispatch_unmatched srv q cmd args s :
  cmd <> "" -> LookupCommand cmd = None ->
  fst (LookupBookmark cmd s) = None ->
  dispatch srv q cmd args s
  = (tt,
     with_response s
       [if negb (String.eqb (URL (config srv)) "")
        then HttpRedirect
               (if negb (String.eqb q "") then Sprintf (URL (config srv)) q
                else URL (config srv))
               StatusFound
        else HttpError ("Invalid Command: " ++ cmd) StatusBadRequest]).
Proof.
  intros Hne Hc Hb. unfold dispatch. rewrite (eqb_empty Hne), Hc.
  unfold bind at 1. pose proof (LookupBookmark_world cmd s) as Hw.
  destruct (LookupBookmark cmd s) as [found s0]. simpl in Hb, Hw. subst.
  destruct (negb (String.eqb (URL (config srv)) "")); reflexivity.
Qed.

(** An append touches the store and the clock only. *)
Lemma AddHistoryEntry_frame command value s :
  w (snd (AddHistoryEntry command value s)) = w s
  /\ ticks (snd (AddHistoryEntry command value s)) = S (ticks s)
  /\ logged (snd (AddHistoryEntry command value s)) = logged s.
Proof.
  unfold AddHistoryEntry, bind, time_Now_UnixNano.
  destruct (json_Marshal _); simpl; [|easy].
  unfold db_Put, on_db. simpl.
  destruct (Put _ _ (db s)) as [[e|] d]; simpl; easy.
Qed.

(** What an append returns and the store it leaves depend on the store
    and on the clock only. *)
Lemma AddHistoryEntry_store command value s1 s2 :
  db s1 = db s2 -> ticks s1 = ticks s2 ->
  fst (AddHistoryEntry command value s1) = fst (AddHistoryEntry command value s2)
  /\ db (snd (AddHistoryEntry command value s1))
     = db (snd (AddHistoryEntry command value s2)).
Proof.
  intros Hd Ht. unfold AddHistoryEntry, bind, time_Now_UnixNano.
  rewrite Ht. destruct (json_Marshal _); simpl; [|easy].
  unfold db_Put, on_db. simpl. rewrite Hd.
  destruct (Put _ _ (db s2)) as [[e|] d]; simpl; easy.
Qed.

Lemma flag_frame r :
  db (flag r) = db (snd r) /\ ticks (flag r) = ticks (snd r).
Proof. unfold flag. destruct (fst r); simpl; easy. Qed.

Lemma flag_response r :
  w (flag r) = w (snd r)
  \/ w (flag r) = (w (snd r) ++ [WriteHeader StatusInternalServerError])%list.
Proof. unfold flag. destruct (fst r); simpl; auto. Qed.

End DispatchFacts.

(** * The dispatcher *)

(** C9: when the token is empty the handler renders the index page and
    nothing else: the store is as before and the clock has not been read,
    so that no history entry is appended. *)
Theorem empty_token_shows_index {env : Env} srv r s q args :
  parse r = (q, "", args) ->
  IndexHandler srv r s
  = (tt, with_response (with_counter s "n_index") [Render "index"])
  /\ db (snd (IndexHandler srv r s)) = db s
  /\ ticks (snd (IndexHandler srv r s)) = ticks s.
Proof.
  intros Hp.
  assert (H : IndexHandler srv r s
              = (tt, with_response (with_counter s "n_index")
                       [Render "index"])).
  { unfold IndexHandler. unfold bind at 1. unfold Inc.
    rewrite Hp. now rewrite dispatch_empty. }
  rewrite H. simpl. auto.
Qed.

(** The query [" golang"] starts with a space: its first token is empty. *)
Lemma empty_token_shows_index_witness :
  let env := Ref.env_with (Ref.steady 1700000000000000000) in
  let s := Ref.world_of Ref.bookmarks in
  parse (Ref.get " golang") = (" golang", "", ["golang"])
  /\ w (snd (IndexHandler Ref.srv (Ref.get " golang") s)) = [Render "index"]
  /\ db (snd (IndexHandler Ref.srv (Ref.get " golang") s)) = db s.
Proof.
  intros env s.
  destruct (@empty_token_shows_index env Ref.srv (Ref.get " golang") s
              " golang" ["golang"] eq_refl) as (H & Hdb & _).
  split; [reflexivity|]. split; [now rewrite H|exact Hdb].
Defined.

(** C1: a non-empty token that names both a command and a bookmark is
    dispatched as the command: the command's [Exec] is the first thing done
    with the response, on the store as the request found it, and no
    bookmark's [Exec] follows. *)
Theorem command_precedes_bookmark {env : Env} srv q cmd args s
  command bookmark :
  cmd <> "" ->
  LookupCommand cmd = Some command ->
  fst (LookupBookmark cmd s) = Some bookmark ->
  exists rest,
    w (snd (dispatch srv q cmd args s))
    = (w s ++ CommandExec (Command.Name command) args :: rest)%list
    /\ (forall name q', ~ In (BookmarkExec name q') rest).
Proof.
  intros Hne Hc _. rewrite (dispatch_command srv q args s Hne Hc).
  cbn [snd].
  set (s1 := report command _ _).
  destruct (AddHistoryEntry_frame (Command.Name command) "" s1) as (Hw & _).
  assert (Hs1 : exists r1,
             w s1 = (w s ++ CommandExec (Command.Name command) args :: r1)%list
             /\ forall name q', ~ In (BookmarkExec name q') r1).
  { subst s1. unfold report.
    destruct (fst (Command.Exec command args (db s))) as [e|]; simpl.
    - eexists. rewrite <- app_assoc. simpl. split; [reflexivity|].
      intros name q' [H|[]]. discriminate.
    - exists []. split; [reflexivity|]. intros name q' []. }
  destruct Hs1 as (r1 & Hr1 & Hno).
  destruct (flag_response (AddHistoryEntry (Command.Name command) "" s1))
    as [Hf|Hf]; rewrite Hf, Hw, Hr1.
  - exists r1. auto.
  - exists (r1 ++ [WriteHeader StatusInternalServerError])%list.
    rewrite <- app_assoc. split; [reflexivity|].
    intros name q' Hin. apply in_app_or in Hin. destruct Hin as [Hin|[H|[]]].
    + exact (Hno _ _ Hin).
    + discriminate.
Qed.

(** [ping] is a command and, in this store, a bookmark too. *)
Lemma command_precedes_bookmark_witness :
  let env := Ref.env_with (Ref.steady 1700000000000000000) in
  let s := Ref.world_of Ref.bookmarks in
  LookupCommand "ping" = Some Ref.ping
  /\ fst (LookupBookmark "ping" s)
     = Some {| Bookmark.name := "ping";
               Bookmark.url := "https://example.com/ping?host=%s" |}
  /\ exists rest,
       w (snd (dispatch Ref.srv "ping me" "ping" ["me"] s))
       = CommandExec "ping" ["me"] :: rest
       /\ (forall name q', ~ In (BookmarkExec name q') rest).
Proof.
  intros env s. split; [reflexivity|]. split; [reflexivity|].
  refine (@command_precedes_bookmark env Ref.srv "ping me" "ping" ["me"] s
            Ref.ping _ _ eq_refl eq_refl).
  discriminate.
Defined.

(** C2: a non-empty token that names neither a command nor a bookmark is
    answered by a redirect to the fallback template when there is one, with
    the query text put into it by [Sprintf] when there is a query text and
    the template as it is otherwise, and by the error 400 "Invalid Command"
    when the fallback is empty. *)
Theorem unmatched_token_falls_back {env : Env} srv q cmd args s :
  cmd <> "" ->
  LookupCommand cmd = None ->
  fst (LookupBookmark cmd s) = None ->
  dispatch srv q cmd args s
  = (tt,
     with_response s
       [if String.eqb (URL (config srv)) ""
        then HttpError ("Invalid Command: " ++ cmd) StatusBadRequest
        else HttpRedirect
               (if String.eqb q "" then URL (config srv)
                else Sprintf (URL (config srv)) q)
               StatusFound]).
Proof.
  intros Hne Hc Hb. rewrite (dispatch_unmatched srv q args s Hne Hc Hb).
  destruct (String.eqb (URL (config srv)) ""); [reflexivity|].
  destruct (String.eqb q ""); reflexivity.
Qed.

(** [weather] is neither a command nor a bookmark. *)
Lemma unmatched_token_falls_back_witness :
  let env := Ref.env_with (Ref.steady 1700000000000000000) in
  let s := Ref.world_of Ref.bookmarks in
  w (snd (dispatch Ref.srv "weather oslo" "weather" ["oslo"] s))
  = [HttpRedirect "https://www.google.com/search?q=weather oslo&btnK" 302]
  /\ w (snd (dispatch Ref.srv "" "weather" ["oslo"] s))
     = [HttpRedirect "https://www.google.com/search?q=%s&btnK" 302]
  /\ w (snd (dispatch Ref.srv_no_fallback "weather oslo" "weather" ["oslo"] s))
     = [HttpError "Invalid Command: weather" 400].
Proof.
  intros env s.
  assert (Hne : "weather" <> "") by discriminate.
  split; [|split].
  - now rewrite (@unmatched_token_falls_back env Ref.srv "weather oslo"
                   "weather" ["oslo"] s Hne eq_refl eq_refl).
  - now rewrite (@unmatched_token_falls_back env Ref.srv ""
                   "weather" ["oslo"] s Hne eq_refl eq_refl).
  - now rewrite (@unmatched_token_falls_back env Ref.srv_no_fallback
                   "weather oslo" "weather" ["oslo"] s Hne eq_refl eq_refl).
Defined.

(** C3, as the code has it: [AddHistoryEntry] is called exactly when the
    token resolves to a command or to a bookmark, after the [Exec] and
    whatever the command's [Exec] returned; it is called with the command's
    name and the empty value, or with the bookmark's name and the arguments
    joined by spaces.  For the empty token and for a token that resolves to
    nothing (fallback or not) the store is as before and the clock is not
    read. *)
Theorem history_follows_resolution {env : Env} srv q cmd args s :
  let s' := snd (dispatch srv q cmd args s) in
  match Resolve cmd s with
  | ShowIndex | Unmatched => db s' = db s /\ ticks s' = ticks s
  | RunCommand command =>
      let executed := with_db s (snd (Command.Exec command args (db s))) in
      db s' = db (snd (AddHistoryEntry (Command.Name command) "" executed))
      /\ ticks s' = S (ticks s)
  | RunBookmark bookmark =>
      db s' = db (snd (AddHistoryEntry (Bookmark.Name bookmark)
                         (Go.Join args " ") s))
      /\ ticks s' = S (ticks s)
  end.
Proof.
  intros s'. subst s'. unfold Resolve.
  destruct (String.eqb_spec cmd "") as [->|Hne].
  { rewrite dispatch_empty. simpl. auto. }
  destruct (LookupCommand cmd) as [command|] eqn:Hc.
  { rewrite (dispatch_command srv q args s Hne Hc). cbn [snd]. cbv zeta.
    match goal with |- context [flag (AddHistoryEntry ?c ?v ?x)] =>
      destruct (flag_frame (AddHistoryEntry c v x)) as (Hd & Ht);
      destruct (AddHistoryEntry_frame c v x) as (_ & Hk & _);
      destruct (@AddHistoryEntry_store env c v x
                  (with_db s (snd (Command.Exec command args (db s)))))
        as (_ & Hs)
    end.
    - unfold report.
      destruct (fst (Command.Exec command args (db s))); reflexivity.
    - unfold report.
      destruct (fst (Command.Exec command args (db s))); reflexivity.
    - rewrite Hd, Ht, Hk, Hs. split; [reflexivity|]. unfold report.
      destruct (fst (Command.Exec command args (db s))); reflexivity. }
  destruct (fst (LookupBookmark cmd s)) as [bookmark|] eqn:Hb.
  { rewrite (dispatch_bookmark srv q args s Hne Hc Hb). cbn [snd].
    match goal with |- context [flag (AddHistoryEntry ?c ?v ?x)] =>
      destruct (flag_frame (AddHistoryEntry c v x)) as (Hd & Ht);
      destruct (AddHistoryEntry_frame c v x) as (_ & Hk & _);
      destruct (@AddHistoryEntry_store env c v x s eq_refl eq_refl)
        as (_ & Hs)
    end.
    rewrite Hd, Ht, Hk, Hs. split; reflexivity. }
  rewrite (dispatch_unmatched srv q args s Hne Hc Hb). simpl. auto.
Qed.

(** C3, as stated, fails: the command [date] fails, the error 500 is
    written, and the history has its entry all the same. *)
Lemma history_after_failed_command :
  let env := Ref.env_with (Ref.steady 1700000000000000000) in
  let s := Ref.world_of Ref.bookmarks in
  let s' := snd (dispatch Ref.srv "date" "date" [] s) in
  LookupCommand "date" = Some Ref.date
  /\ fst (Command.Exec Ref.date [] (db s)) = Some "date: unknown zone"
  /\ w s' = [CommandExec "date" [];
             HttpError "Error processing command date: date: unknown zone"
               500]
  /\ fst (listHistory s) = Some []
  /\ fst (listHistory s')
     = Some [{| Timestamp := 1700000000000000000;
                Command := "date"; Value := "" |}].
Proof. vm_compute. repeat split. Qed.

(** * The history log *)

(** C10: an append whose entry cannot be serialized returns that error and
    leaves the store as it was; otherwise it is one [Put] of the serialized
    entry under the entry's key: the append returns what that [Put] returns
    and leaves the store that [Put] leaves. *)
Theorem AddHistoryEntry_one_Put {env : Env} command value s :
  let ts := UnixNano (ticks s) in
  match json_Marshal
          {| Timestamp := ts; Command := command; Value := value |} with
  | Err err =>
      fst (AddHistoryEntry command value s) = Some err
      /\ db (snd (AddHistoryEntry command value s)) = db s
  | Ok b =>
      fst (AddHistoryEntry command value s)
      = fst (Put (BuildHistoryKey ts) b (db s))
      /\ db (snd (AddHistoryEntry command value s))
         = snd (Put (BuildHistoryKey ts) b (db s))
  end.
Proof.
  intros ts. subst ts.
  destruct (json_Marshal _) as [b|err] eqn:Hm.
  - rewrite (AddHistoryEntry_Ok _ _ _ Hm). simpl. auto.
  - rewrite (AddHistoryEntry_Err _ _ _ Hm). simpl. auto.
Qed.

(** An entry that cannot be serialized, a closed handle, and a working
    one. *)
Lemma AddHistoryEntry_one_Put_witness :
  let clock := Ref.steady 1700000000000000000 in
  let s := Ref.world_of Ref.bookmarks in
  let closed := Ref.world_of Ref.closed in
  (fst (AddHistoryEntry (env := Ref.env_unmarshalable clock) "gh" "golang" s)
   = Some "json: unsupported value"
   /\ db (snd (AddHistoryEntry (env := Ref.env_unmarshalable clock)
                 "gh" "golang" s)) = db s)
  /\ (fst (AddHistoryEntry (env := Ref.env_with clock) "gh" "golang" closed)
      = Some "error: database is closed"
      /\ db (snd (AddHistoryEntry (env := Ref.env_with clock)
                    "gh" "golang" closed)) = Ref.closed)
  /\ (fst (AddHistoryEntry (env := Ref.env_with clock) "gh" "golang" s) = None
      /\ scan_keys "history_"
           (db (snd (AddHistoryEntry (env := Ref.env_with clock)
                       "gh" "golang" s)))
         = ["history_1700000000000000000"]).
Proof.
  intros clock s closed. split; [|split].
  - exact (@AddHistoryEntry_one_Put (Ref.env_unmarshalable clock)
             "gh" "golang" s).
  - exact (@AddHistoryEntry_one_Put (Ref.env_with clock)
             "gh" "golang" closed).
  - destruct (@AddHistoryEntry_one_Put (Ref.env_with clock) "gh" "golang" s)
      as [Hr Hd].
    split; [exact Hr|]. now rewrite Hd.
Defined.

(** C6: the key of an append is ["history_"] followed by the decimal
    numeral of the clock reading; the append changes the record of no other
    key; on a working store an append whose entry serializes returns [nil]
    and leaves, under that key, the serialization of the entry with the
    same reading as timestamp, the command and the value; in general, when
    it returns [nil] that key holds that serialization, and when it returns
    an error the store is as before. *)
Theorem AddHistoryEntry_writes_its_key {env : Env} command value s :
  let ts := UnixNano (ticks s) in
  let s' := snd (AddHistoryEntry command value s) in
  let entry := {| Timestamp := ts; Command := command; Value := value |} in
  BuildHistoryKey ts = "history_" ++ Go.fmt_d ts
  /\ Ref.read_int (Go.fmt_d ts) = Some (ts, "")
  /\ (forall k, k <> BuildHistoryKey ts ->
                lookup k (cells (db s')) = lookup k (cells (db s)))
  /\ (forall b,
        json_Marshal entry = Ok b ->
        fault (db s) = None ->
        fst (AddHistoryEntry command value s) = None
        /\ lookup (BuildHistoryKey ts) (cells (db s')) = Some (Readable b)
        /\ Get (BuildHistoryKey ts) (db s') = Ok b)
  /\ match fst (AddHistoryEntry command value s) with
     | None =>
         exists b,
           json_Marshal entry = Ok b
           /\ Get (BuildHistoryKey ts) (db s') = Ok b
     | Some _ => db s' = db s
     end.
Proof.
  intros ts s' entry. subst ts s' entry. split; [reflexivity|].
  split; [apply fmt_d_read_int|].
  destruct (json_Marshal {| Timestamp := UnixNano (ticks s);
                            Command := command; Value := value |})
    as [b|err] eqn:Hm.
  - rewrite (AddHistoryEntry_Ok _ _ _ Hm). cbn [fst snd with_db db].
    split; [intros k Hk; now apply Put_other|]. split.
    + intros b' [= <-] Hf. unfold Put, Get. rewrite Hf. cbn [fst snd cells fault].
      rewrite lookup_insert_same. auto.
    + destruct (fst (Put _ b (db s))) as [e|] eqn:Hput.
      * now apply Put_failed with (e := e).
      * exists b. split; [reflexivity|]. now apply Put_done.
  - rewrite (AddHistoryEntry_Err _ _ _ Hm). simpl.
    split; [auto|]. split; [intros b [=]|reflexivity].
Qed.

(** An append to a working store of two bookmarks. *)
Lemma AddHistoryEntry_writes_its_key_witness :
  let env := Ref.env_with (Ref.steady 1700000000000000000) in
  let s := Ref.world_of Ref.bookmarks in
  let s' := snd (AddHistoryEntry "gh" "golang" s) in
  let entry := {| Timestamp := 1700000000000000000;
                  Command := "gh"; Value := "golang" |} in
  BuildHistoryKey 1700000000000000000 = "history_1700000000000000000"
  /\ lookup "bookmark_gh" (cells (db s'))
     = Some (Readable "https://github.com/search?q=%s")
  /\ json_Marshal entry = Ok (Ref.json_of entry)
  /\ fault (db s) = None
  /\ fst (AddHistoryEntry "gh" "golang" s) = None
  /\ lookup "history_1700000000000000000" (cells (db s'))
     = Some (Readable (Ref.json_of entry))
  /\ Get "history_1700000000000000000" (db s') = Ok (Ref.json_of entry).
Proof.
  intros env s s' entry.
  destruct (@AddHistoryEntry_writes_its_key env "gh" "golang" s)
    as (Hkey & _ & Hother & Hstores & _).
  split; [exact Hkey|]. split.
  - fold s' in Hother. rewrite Hother; [reflexivity|discriminate].
  - split; [reflexivity|]. split; [reflexivity|].
    exact (Hstores (Ref.json_of entry) eq_refl eq_refl).
Defined.

(** The handler around the listing. *)
Lemma HistoryHandler_eq {env : Env} srv s :
  HistoryHandler srv s
  = (tt,
     match fst (listHistory (with_counter s "n_history")) with
     | None => snd (listHistory (with_counter s "n_history"))
     | Some allEntriesReversed =>
         with_response (snd (listHistory (with_counter s "n_history")))
           [RenderHistory (map html_entry allEntriesReversed)]
     end).
Proof.
  unfold HistoryHandler. unfold bind at 1. unfold Inc.
  change {| db := db s; ticks := ticks s; w := w s; logged := logged s;
            counters := counters s ++ ["n_history"] |}
    with (with_counter s "n_history").
  unfold bind. destruct (listHistory (with_counter s "n_history")) as [[l|] s1];
    reflexivity.
Qed.

(** The listing when one key of the scan fails, in the read or in the
    decoding, and the keys around it decode. *)
Lemma listHistory_one_failure {env : Env} s ks1 k ks2 es1 es2 err :
  fault (db s) = None ->
  scan_keys "history_" (db s) = (ks1 ++ k :: ks2)%list ->
  Forall2 (fun k e => decode (db s) k = Ok e) ks1 es1 ->
  Forall2 (fun k e => decode (db s) k = Ok e) ks2 es2 ->
  decode (db s) k = Err err ->
  listHistory s = (Some (rev (es1 ++ es2)), with_logged s [err]).
Proof.
  intros Hf Hk H1 H2 Hbad. rewrite (listHistory_open _ Hf), Hk.
  destruct (@decoded_all env _ _ _ H1) as [D1 F1].
  destruct (@decoded_all env _ _ _ H2) as [D2 F2].
  rewrite decoded_app, failures_app. cbn [decoded failures].
  rewrite Hbad, D1, D2, F1, F2. reflexivity.
Qed.

(** C7: when the value of one history record does not decode and the
    others do, the listing logs that one error and returns all the other
    entries, latest first; the handler renders them. *)
Theorem listing_skips_undecodable {env : Env} srv s ks1 kbad ks2 es1 es2
  val err :
  fault (db s) = None ->
  scan_keys "history_" (db s) = (ks1 ++ kbad :: ks2)%list ->
  Forall2 (fun k e => decode (db s) k = Ok e) ks1 es1 ->
  Forall2 (fun k e => decode (db s) k = Ok e) ks2 es2 ->
  Get kbad (db s) = Ok val ->
  json_Unmarshal val = Err err ->
  listHistory s = (Some (rev (es1 ++ es2)), with_logged s [err])
  /\ HistoryHandler srv s
     = (tt,
        with_response (with_logged (with_counter s "n_history") [err])
          [RenderHistory (map html_entry (rev (es1 ++ es2)))]).
Proof.
  intros Hf Hk H1 H2 Hget Hdec.
  assert (Hbad : decode (db s) kbad = Err err)
    by (unfold decode; now rewrite Hget).
  split.
  - now apply listHistory_one_failure with (ks1 := ks1) (k := kbad) (ks2 := ks2).
  - rewrite HistoryHandler_eq.
    rewrite (@listHistory_one_failure env (with_counter s "n_history")
               ks1 kbad ks2 es1 es2 err); auto.
Qed.

(** The second of three records is not JSON. *)
Lemma listing_skips_undecodable_witness :
  let env := Ref.env_with (Ref.steady 1700000000000000000) in
  let s := Ref.world_of Ref.damaged in
  Get "history_1700000000000000002" (db s) = Ok "{timestamp"
  /\ json_Unmarshal "{timestamp" = Err Ref.syntax_error
  /\ listHistory s
     = (Some [Ref.entry3; Ref.entry1], with_logged s [Ref.syntax_error]).
Proof.
  intros env s. split; [reflexivity|]. split; [reflexivity|].
  refine (proj1 (@listing_skips_undecodable env Ref.srv s
            ["history_1700000000000000001"] "history_1700000000000000002"
            ["history_1700000000000000003"] [Ref.entry1] [Ref.entry3]
            "{timestamp" Ref.syntax_error eq_refl eq_refl _ _ eq_refl eq_refl));
    repeat constructor.
Defined.

(** C8, as the code has it: when the scan itself fails the handler answers
    with the status 500 and renders nothing; when the read of one key
    fails during a scan, the error is logged, the key is left out, and the
    handler renders the other entries. *)
Theorem listing_read_failure {env : Env} srv s :
  (forall e,
     fault (db s) = Some e ->
     HistoryHandler srv s
     = (tt, with_response (with_counter s "n_history")
              [WriteHeader StatusInternalServerError]))
  /\ (forall ks1 k ks2 es1 es2 err,
        fault (db s) = None ->
        scan_keys "history_" (db s) = (ks1 ++ k :: ks2)%list ->
        Forall2 (fun k e => decode (db s) k = Ok e) ks1 es1 ->
        Forall2 (fun k e => decode (db s) k = Ok e) ks2 es2 ->
        Get k (db s) = Err err ->
        HistoryHandler srv s
        = (tt,
           with_response (with_logged (with_counter s "n_history") [err])
             [RenderHistory (map html_entry (rev (es1 ++ es2)))])).
Proof.
  split.
  - intros e Hf. rewrite HistoryHandler_eq.
    now rewrite (@listHistory_fault env (with_counter s "n_history") e Hf).
  - intros ks1 k ks2 es1 es2 err Hf Hk H1 H2 Hget.
    assert (Hbad : decode (db s) k = Err err)
      by (unfold decode; now rewrite Hget).
    rewrite HistoryHandler_eq.
    rewrite (@listHistory_one_failure env (with_counter s "n_history")
               ks1 k ks2 es1 es2 err); auto.
Qed.

(** A closed handle, and a handle with one record that cannot be read. *)
Lemma listing_read_failure_witness :
  let env := Ref.env_with (Ref.steady 1700000000000000000) in
  w (snd (HistoryHandler Ref.srv (Ref.world_of Ref.closed)))
  = [WriteHeader 500]
  /\ Get "history_1700000000000000002" Ref.unreadable = Err "checksum failed"
  /\ snd (HistoryHandler Ref.srv (Ref.world_of Ref.unreadable))
     = {| db := Ref.unreadable; ticks := 0;
          w := [RenderHistory [html_entry Ref.entry3; html_entry Ref.entry1]];
          logged := ["checksum failed"]; counters := ["n_history"] |}.
Proof.
  intros env.
  destruct (@listing_read_failure env Ref.srv (Ref.world_of Ref.closed))
    as [Hclosed _].
  destruct (@listing_read_failure env Ref.srv (Ref.world_of Ref.unreadable))
    as [_ Hread].
  split; [|split; [reflexivity|]].
  - now rewrite (Hclosed "error: database is closed" eq_refl).
  - rewrite (Hread ["history_1700000000000000001"] "history_1700000000000000002"
               ["history_1700000000000000003"] [Ref.entry1] [Ref.entry3]
               "checksum failed" eq_refl eq_refl); try reflexivity;
      repeat constructor.
Defined.

(** C8, as stated, fails: the read of the second record fails, and the
    handler renders the two others without any status 500. *)
Lemma read_failure_is_not_reported :
  let env := Ref.env_with (Ref.steady 1700000000000000000) in
  let s := Ref.world_of Ref.unreadable in
  scan_keys "history_" (db s)
  = ["history_1700000000000000001"; "history_1700000000000000002";
     "history_1700000000000000003"]
  /\ Get "history_1700000000000000002" (db s) = Err "checksum failed"
  /\ w (snd (HistoryHandler Ref.srv s))
     = [RenderHistory
          [{| When := "1700000000000000003"; What := "ping " |};
           {| When := "1700000000000000001"; What := "gh golang" |}]]
  /\ ~ In (WriteHeader StatusInternalServerError)
          (w (snd (HistoryHandler Ref.srv s))).
Proof.
  vm_compute. repeat split. intros [H|[]]. discriminate.
Qed.

(** ** Listing after an append *)

Section AppendThenList.

Context {env : Env}.

Lemma decoded_ext d d' ks :
  (forall k, In k ks -> decode d' k = decode d k) ->
  decoded d' ks = decoded d ks.
Proof.
  induction ks as [|k ks IH]; intros H; simpl; [reflexivity|].
  rewrite (H k (or_introl eq_refl)).
  rewrite IH by (intros k' Hk'; apply H; now right). reflexivity.
Qed.

Lemma decoded_In d ks k e :
  In k ks -> decode d k = Ok e -> In e (decoded d ks).
Proof.
  induction ks as [|k' ks IH]; simpl; [easy|]. intros [->|Hin] Hd.
  - rewrite Hd. now left.
  - destruct (decode d k'); [right|]; auto.
Qed.

Lemma In_decoded d ks e :
  In e (decoded d ks) -> exists k, In k ks /\ decode d k = Ok e.
Proof.
  induction ks as [|k' ks IH]; simpl; [easy|].
  destruct (decode d k') as [e'|err] eqn:Hd.
  - intros [->|Hin].
    + exists k'. auto.
    + destruct (IH Hin) as (k & Hk & Hdk). exists k. auto.
  - intros Hin. destruct (IH Hin) as (k & Hk & Hdk). exists k. auto.
Qed.

Lemma insert_keys key c l k :
  In k (map fst (insert key c l)) -> k = key \/ In k (map fst l).
Proof.
  induction l as [|[k' c'] l IH]; simpl.
  - intros [<-|[]]. now left.
  - destruct (String.compare key k') eqn:Hc; simpl.
    + intros [<-|H]; auto.
    + intros [<-|[<-|H]]; auto.
    + intros [<-|H]; auto. destruct (IH H); auto.
Qed.

(** Reading back through [decode] after a [Put]. *)
Lemma decode_insert_same d key b e :
  fault d = None -> json_Unmarshal b = Ok e ->
  decode {| cells := insert key (Readable b) (cells d); fault := None |} key
  = Ok e.
Proof.
  intros Hf Hu. unfold decode, Get. simpl. now rewrite lookup_insert_same.
Qed.

Lemma decode_insert_other d key b k :
  fault d = None -> k <> key ->
  decode {| cells := insert key (Readable b) (cells d); fault := None |} k
  = decode d k.
Proof.
  intros Hf Hne. unfold decode, Get. simpl. rewrite Hf.
  now rewrite lookup_insert_other.
Qed.

(** One append of an entry whose key is above the keys of the history:
    the entry becomes the last of the scan. *)
Lemma append_last command value s :
  let ts := UnixNano (ticks s) in
  let e := {| Timestamp := ts; Command := command; Value := value |} in
  let s' := snd (AddHistoryEntry command value s) in
  fault (db s) = None ->
  ascending (cells (db s)) = true ->
  Forall (fun k => String.ltb k (BuildHistoryKey ts) = true)
         (scan_keys "history_" (db s)) ->
  roundtrip e ->
  fault (db s') = None
  /\ ascending (cells (db s')) = true
  /\ ticks s' = S (ticks s)
  /\ scan_keys "history_" (db s')
     = (scan_keys "history_" (db s) ++ [BuildHistoryKey ts])%list
  /\ decoded (db s') (scan_keys "history_" (db s'))
     = (decoded (db s) (scan_keys "history_" (db s)) ++ [e])%list.
Proof.
  intros ts e s' Hf Hasc Hall (b & Hm & Hu). subst s'.
  rewrite (AddHistoryEntry_stored _ _ _ Hm Hf). cbn [snd with_db db ticks tick].
  fold ts.
  assert (Hkeys :
    scan_keys "history_"
      {| cells := insert (BuildHistoryKey ts) (Readable b) (cells (db s));
         fault := None |}
    = (scan_keys "history_" (db s) ++ [BuildHistoryKey ts])%list).
  { unfold scan_keys. cbn [cells].
    apply scan_keys_insert_last; auto. apply BuildHistoryKey_prefix. }
  repeat split; auto.
  - cbn [cells]. now apply ascending_insert.
  - rewrite Hkeys, decoded_app. cbn [decoded].
    rewrite (@decode_insert_same (db s) (BuildHistoryKey ts) b e Hf Hu). f_equal.
    apply decoded_ext. intros k Hk. apply decode_insert_other; [exact Hf|].
    rewrite Forall_forall in Hall. apply ltb_neq. now apply Hall.
Qed.

(** An append on a working handle: its entry is among the decoded ones,
    and the others decode as they did before. *)
Lemma append_listed command value s :
  let ts := UnixNano (ticks s) in
  let e := {| Timestamp := ts; Command := command; Value := value |} in
  let s' := snd (AddHistoryEntry command value s) in
  fault (db s) = None ->
  roundtrip e ->
  fault (db s') = None
  /\ ticks s' = S (ticks s)
  /\ In e (decoded (db s') (scan_keys "history_" (db s')))
  /\ (forall e0, In e0 (decoded (db s') (scan_keys "history_" (db s'))) ->
        e0 = e
        \/ exists k, In k (scan_keys "history_" (db s))
                     /\ decode (db s) k = Ok e0).
Proof.
  intros ts e s' Hf (b & Hm & Hu). subst s'.
  rewrite (AddHistoryEntry_stored _ _ _ Hm Hf). cbn [snd with_db db ticks tick].
  fold ts. repeat split; auto.
  - apply decoded_In with (k := BuildHistoryKey ts).
    + unfold scan_keys. apply filter_In. split.
      * cbn [cells]. apply insert_In.
      * apply BuildHistoryKey_prefix.
    + now apply decode_insert_same.
  - intros e0 Hin. apply In_decoded in Hin. destruct Hin as (k & Hk & Hd).
    destruct (String.eqb_spec k (BuildHistoryKey ts)) as [->|Hne].
    + rewrite (@decode_insert_same (db s) (BuildHistoryKey ts) b e Hf Hu) in Hd.
      left. congruence.
    + right. exists k.
      rewrite (@decode_insert_other (db s) (BuildHistoryKey ts) b k Hf Hne) in Hd.
      split; [|exact Hd].
      unfold scan_keys in Hk |- *. apply filter_In in Hk. destruct Hk as [Hk Hp].
      apply filter_In. split; [|exact Hp]. cbn [cells] in Hk.
      destruct (@insert_keys _ _ _ _ Hk); [contradiction|assumption].
Qed.

(** The store of a run stays one written by appends. *)
Lemma written_by_appends_step command value s :
  fault (db s) = None ->
  roundtrip {| Timestamp := UnixNano (ticks s);
               Command := command; Value := value |} ->
  written_by_appends s ->
  written_by_appends (snd (AddHistoryEntry command value s)).
Proof.
  intros Hf Hr Hinv k e0 Hk Hd.
  destruct (@append_listed command value s Hf Hr) as (_ & Ht & _ & Hall).
  rewrite Ht. destruct (Hall e0 (@decoded_In _ _ _ _ Hk Hd)) as [->|(k0 & Hk0 & Hd0)].
  - exists (ticks s). split; [lia|reflexivity].
  - destruct (Hinv k0 e0 Hk0 Hd0) as (i & Hi & Hts). exists i. split; [lia|exact Hts].
Qed.

End AppendThenList.

(** C4, as the code has it: three appends A, B, C whose clock readings
    increase and have equally many digits, on a working store whose history
    keys are all below the key of A, are listed as C, B, A, before the
    entries that were there. *)
Theorem three_appends_listed_latest_first {env : Env} s (n : nat)
  cA vA cB vB cC vC old :
  let tA := UnixNano (ticks s) in
  let tB := UnixNano (S (ticks s)) in
  let tC := UnixNano (S (S (ticks s))) in
  let A := {| Timestamp := tA; Command := cA; Value := vA |} in
  let B := {| Timestamp := tB; Command := cB; Value := vB |} in
  let C := {| Timestamp := tC; Command := cC; Value := vC |} in
  let s1 := snd (AddHistoryEntry cA vA s) in
  let s2 := snd (AddHistoryEntry cB vB s1) in
  let s3 := snd (AddHistoryEntry cC vC s2) in
  fault (db s) = None ->
  ascending (cells (db s)) = true ->
  fst (listHistory s) = Some old ->
  Forall (fun k => String.ltb k (BuildHistoryKey tA) = true)
         (scan_keys "history_" (db s)) ->
  10 ^ Z.of_nat n <= tA -> tA < tB -> tB < tC -> tC < 10 ^ Z.of_nat (S n) ->
  roundtrip A -> roundtrip B -> roundtrip C ->
  fst (listHistory s3) = Some (C :: B :: A :: old).
Proof.
  intros tA tB tC A B C s1 s2 s3 Hf Hasc Hold Hall Hlo HAB HBC Hhi
    HrA HrB HrC.
  assert (HkAB : String.ltb (BuildHistoryKey tA) (BuildHistoryKey tB) = true)
    by (apply (@BuildHistoryKey_lt n); lia).
  assert (HkBC : String.ltb (BuildHistoryKey tB) (BuildHistoryKey tC) = true)
    by (apply (@BuildHistoryKey_lt n); lia).
  destruct (@append_last env cA vA s Hf Hasc Hall HrA)
    as (Hf1 & Hasc1 & Ht1 & Hk1 & Hd1).
  fold s1 in Hf1, Hasc1, Ht1, Hk1, Hd1. fold tA A in Hk1, Hd1.
  assert (Hall1 : Forall (fun k => String.ltb k (BuildHistoryKey tB) = true)
                         (scan_keys "history_" (db s1))).
  { rewrite Hk1. apply Forall_app. split.
    - eapply Forall_impl; [|exact Hall]. intros k Hk. simpl in Hk.
      eapply ltb_trans; eassumption.
    - now constructor. }
  pose proof (@append_last env cB vB s1 Hf1 Hasc1) as H2.
  cbv zeta in H2. rewrite Ht1 in H2. fold tB B in H2.
  destruct (H2 Hall1 HrB) as (Hf2 & Hasc2 & Ht2 & Hk2 & Hd2). clear H2.
  fold s2 in Hf2, Hasc2, Ht2, Hk2, Hd2.
  assert (Hall2 : Forall (fun k => String.ltb k (BuildHistoryKey tC) = true)
                         (scan_keys "history_" (db s2))).
  { rewrite Hk2. apply Forall_app. split.
    - eapply Forall_impl; [|exact Hall1]. intros k Hk. simpl in Hk.
      eapply ltb_trans; eassumption.
    - now constructor. }
  pose proof (@append_last env cC vC s2 Hf2 Hasc2) as H3.
  cbv zeta in H3. rewrite Ht2 in H3. fold tC C in H3.
  destruct (H3 Hall2 HrC) as (Hf3 & _ & _ & _ & Hd3). clear H3.
  fold s3 in Hf3, Hd3.
  rewrite (listHistory_open _ Hf) in Hold. cbn [fst] in Hold.
  injection Hold as Hold.
  rewrite (listHistory_open _ Hf3). cbn [fst].
  rewrite Hd3, Hd2, Hd1, !rev_app_distr. simpl. now rewrite Hold.
Qed.

(** Three appends one nanosecond apart, after an entry of an earlier day. *)
Lemma three_appends_listed_latest_first_witness :
  let env := Ref.env_with (Ref.steady 1700000000000000000) in
  let s := Ref.world_of Ref.earlier in
  let s1 := snd (AddHistoryEntry "a" "1" s) in
  let s2 := snd (AddHistoryEntry "b" "2" s1) in
  let s3 := snd (AddHistoryEntry "c" "3" s2) in
  fst (listHistory s) = Some [Ref.entry0]
  /\ fst (listHistory s3)
     = Some [{| Timestamp := 1700000000000000002;
                Command := "c"; Value := "3" |};
             {| Timestamp := 1700000000000000001;
                Command := "b"; Value := "2" |};
             {| Timestamp := 1700000000000000000;
                Command := "a"; Value := "1" |};
             Ref.entry0].
Proof.
  intros env s s1 s2 s3. split; [reflexivity|].
  refine (@three_appends_listed_latest_first env s 18
            "a" "1" "b" "2" "c" "3" [Ref.entry0]
            eq_refl eq_refl eq_refl _ _ _ _ _ _ _ _).
  - repeat constructor.
  - vm_compute. discriminate.
  - reflexivity.
  - reflexivity.
  - reflexivity.
  - eexists. split; reflexivity.
  - eexists. split; reflexivity.
  - eexists. split; reflexivity.
Defined.

(** C4, as stated, fails: the clock passes from nine digits to ten between
    A and B; the three appends succeed, and the listing is A, C, B. *)
Lemma three_appends_across_a_digit :
  let env := Ref.env_with (Ref.steady 999999999) in
  let s := Ref.world_of (Ref.open_store []) in
  let s1 := snd (AddHistoryEntry "a" "1" s) in
  let s2 := snd (AddHistoryEntry "b" "2" s1) in
  let s3 := snd (AddHistoryEntry "c" "3" s2) in
  let A := {| Timestamp := 999999999; Command := "a"; Value := "1" |} in
  let B := {| Timestamp := 1000000000; Command := "b"; Value := "2" |} in
  let C := {| Timestamp := 1000000001; Command := "c"; Value := "3" |} in
  fst (AddHistoryEntry "a" "1" s) = None
  /\ fst (AddHistoryEntry "b" "2" s1) = None
  /\ fst (AddHistoryEntry "c" "3" s2) = None
  /\ scan_keys "history_" (db s3)
     = ["history_1000000000"; "history_1000000001"; "history_999999999"]
  /\ fst (listHistory s3) = Some [A; C; B]
  /\ fst (listHistory s3) <> Some [C; B; A].
Proof. vm_compute. repeat split. discriminate. Qed.

(** C5, as the code has it: on a working store, after the append of
    [gh golang] the listing has the entry with that command, that value
    and the reading of the clock taken by the append as its timestamp,
    whatever the clock reads; when that reading is above the earlier
    readings, every other listed entry of a store written by the appends of
    the run, that is every previously appended entry, has a smaller
    timestamp. *)
Theorem appended_entry_is_listed {env : Env} s :
  let ts := UnixNano (ticks s) in
  let e := {| Timestamp := ts; Command := "gh"; Value := "golang" |} in
  let s' := snd (AddHistoryEntry "gh" "golang" s) in
  fault (db s) = None ->
  roundtrip e ->
  exists l,
    fst (listHistory s') = Some l
    /\ (exists e1,
          In e1 l /\ Command e1 = "gh" /\ Value e1 = "golang"
          /\ Timestamp e1 = UnixNano (ticks s))
    /\ In e l
    /\ (written_by_appends s ->
        (forall i, (i < ticks s)%nat -> UnixNano i < ts) ->
        forall e0, In e0 l -> e0 = e \/ Timestamp e0 < Timestamp e).
Proof.
  intros ts e s' Hf Hr.
  destruct (@append_listed env "gh" "golang" s Hf Hr) as (Hf' & _ & Hin & Hall).
  fold s' ts e in Hf', Hin, Hall.
  exists (rev (decoded (db s') (scan_keys "history_" (db s')))).
  rewrite (listHistory_open _ Hf'). split; [reflexivity|].
  apply in_rev in Hin. split; [|split; [exact Hin|]].
  - exists e. auto.
  - intros Hinv Hclock e0 He0. apply in_rev in He0.
    destruct (Hall e0 He0) as [->|(k & Hk & Hd)]; [now left|right].
    destruct (Hinv k e0 Hk Hd) as (i & Hi & ->). simpl. now apply Hclock.
Qed.

(** The second append of a run whose clock advances, and the second append
    of a run whose clock is set back: the entry is listed in both, and in
    the first it has the greatest timestamp. *)
Lemma appended_entry_is_listed_witness :
  let steady := Ref.env_with (Ref.steady 1700000000000000000) in
  let set_back :=
    Ref.env_with (Ref.readings [1700000000000000005; 1700000000000000003]) in
  let s := snd (AddHistoryEntry (env := steady) "ping" ""
                  (Ref.world_of Ref.bookmarks)) in
  let r := snd (AddHistoryEntry (env := set_back) "ping" ""
                  (Ref.world_of Ref.bookmarks)) in
  let e := {| Timestamp := 1700000000000000001;
              Command := "gh"; Value := "golang" |} in
  let e' := {| Timestamp := 1700000000000000003;
               Command := "gh"; Value := "golang" |} in
  (exists l,
     fst (listHistory (env := steady)
            (snd (AddHistoryEntry (env := steady) "gh" "golang" s))) = Some l
     /\ In e l
     /\ (forall e0, In e0 l -> e0 = e \/ Timestamp e0 < Timestamp e))
  /\ (exists l,
        fst (listHistory (env := set_back)
               (snd (AddHistoryEntry (env := set_back) "gh" "golang" r)))
        = Some l
        /\ In e' l).
Proof.
  intros steady set_back s r e e'. split.
  - destruct (@appended_entry_is_listed steady s eq_refl)
      as (l & Hl & _ & Hin & Hmax).
    { eexists. split; reflexivity. }
    exists l. split; [exact Hl|]. split; [exact Hin|]. apply Hmax.
    + apply (@written_by_appends_step steady "ping" ""
               (Ref.world_of Ref.bookmarks)).
      * reflexivity.
      * eexists. split; reflexivity.
      * intros k e0 [].
    + intros i Hi. assert (i = 0%nat) as -> by (simpl in Hi; lia).
      reflexivity.
  - destruct (@appended_entry_is_listed set_back r eq_refl)
      as (l & Hl & _ & Hin & _).
    { eexists. split; reflexivity. }
    exists l. split; [exact Hl|exact Hin].
Defined.

(** C5, as stated, fails: the clock is set back two nanoseconds between two
    appends; both succeed, and the entry of the second has the smaller
    timestamp. *)
Lemma clock_set_back :
  let env :=
    Ref.env_with (Ref.readings [1700000000000000005; 1700000000000000003]) in
  let s := Ref.world_of (Ref.open_store []) in
  let s1 := snd (AddHistoryEntry "ping" "" s) in
  let s2 := snd (AddHistoryEntry "gh" "golang" s1) in
  let first := {| Timestamp := 1700000000000000005;
                  Command := "ping"; Value := "" |} in
  let second := {| Timestamp := 1700000000000000003;
                   Command := "gh"; Value := "golang" |} in
  fst (AddHistoryEntry "ping" "" s) = None
  /\ fst (AddHistoryEntry "gh" "golang" s1) = None
  /\ fst (listHistory s1) = Some [first]
  /\ fst (listHistory s2) = Some [first; second]
  /\ ~ Timestamp first < Timestamp second.
Proof. vm_compute. repeat split. discriminate. Qed.

(** * The rest of the server *)

(** ** The query text, its token and its arguments *)

Section QueryFacts.





(** A text without the separator, then the separator, then the rest: the
    first piece is the text, the others are the pieces of the rest. *)
Lemma Split_first name sep rest :
  GoLib.occurs sep name = false ->
  Go.Split (name ++ String sep rest) sep = name :: Go.Split rest sep.
Proof.
  induction name as [|c name IH]; intros Hn.
  - simpl. now rewrite Ascii.eqb_refl.
  - simpl in Hn. apply orb_false_elim in Hn. destruct Hn as [Hc Hn].
    change ((String c name) ++ String sep rest)
      with (String c (name ++ String sep rest)).
    cbn [Go.Split]. rewrite Hc, (IH Hn). reflexivity.
Qed.

Lemma Split_alone name sep :
  GoLib.occurs sep name = false -> name <> "" ->
  Go.Split name sep = [name].
Proof.
  induction name as [|c name IH]; intros Hn Hne; [congruence|].
  simpl in Hn. apply orb_false_elim in Hn. destruct Hn as [Hc Hn].
  cbn [Go.Split]. rewrite Hc. destruct name as [|c' name]; [reflexivity|].
  rewrite IH by (auto; discriminate). reflexivity.
Qed.

(** The query text a request is read for: the query parameter, or the form
    value when there is no query parameter. *)
Lemma parse_text r :
  fst (fst (parse r)) = if String.eqb (query_q r) "" then form_q r
                        else query_q r.
Proof.
  unfold parse.
  destruct (negb (String.eqb _ "")); [|reflexivity].
  destruct (Go.Split _ " "); reflexivity.
Qed.

Lemma parse_of_text r q :
  (query_q r = q \/ (query_q r = "" /\ form_q r = q)) -> q <> "" ->
  parse r = match Go.Split q " " with
            | cmd :: args => (q, cmd, args)
            | [] => (q, "", [])
            end.
Proof.
  intros Hq Hne. unfold parse.
  assert (E : (if String.eqb (query_q r) "" then form_q r else query_q r) = q).
  { destruct Hq as [<-|[-> <-]]; [|reflexivity].
    now rewrite (proj2 (String.eqb_neq _ _) Hne). }
  rewrite E, (proj2 (String.eqb_neq _ _) Hne). reflexivity.
Qed.

End QueryFacts.



Section IndexFacts.

Context {env : Env}.

Lemma IndexHandler_eq srv r s :
  IndexHandler srv r s
  = dispatch srv (fst (fst (parse r))) (snd (fst (parse r))) (snd (parse r))
      (with_counter s "n_index").
Proof.
  unfold IndexHandler. unfold bind at 1. unfold Inc.
  destruct (parse r) as [[q cmd] args]. reflexivity.
Qed.




End IndexFacts.



(** X3: a request whose query text starts with a command's name runs the
    command on the pieces that follow the name: none when the text is the
    name alone, and otherwise the pieces between the single spaces of the
    rest, empty pieces included. *)
Theorem command_gets_the_pieces {env : Env} srv r s q name args command :
  (query_q r = q \/ (query_q r = "" /\ form_q r = q)) ->
  ((q = name /\ args = [])
   \/ exists rest, q = name ++ " " ++ rest /\ args = Go.Split rest " ") ->
  name <> "" ->
  GoLib.occurs " " name = false ->
  LookupCommand name = Some command ->
  exists tail,
    w (snd (IndexHandler srv r s))
    = (w s ++ CommandExec (Command.Name command) args :: tail)%list.
Proof.
  intros Hq Hform Hne Hsp Hc.
  assert (Hq' : q <> "").
  { destruct Hform as [[-> _]|(rest & -> & _)]; [exact Hne|].
    destruct name; [congruence|discriminate]. }
  assert (Hsplit : Go.Split q " " = name :: args).
  { destruct Hform as [[-> ->]|(rest & -> & ->)].
    - now apply Split_alone.
    - change (name ++ " " ++ rest) with (name ++ String " " rest).
      now apply Split_first. }
  rewrite IndexHandler_eq, (parse_of_text r Hq Hq'), Hsplit. cbn [fst snd].
  rewrite (dispatch_command srv q args (with_counter s "n_index") Hne Hc).
  cbn [snd].
  match goal with |- context [flag (AddHistoryEntry ?c ?v ?x)] =>
    destruct (AddHistoryEntry_frame c v x) as (Hw & _);
    destruct (flag_response (AddHistoryEntry c v x)) as [Hf|Hf]
  end; rewrite Hf, Hw; unfold report;
    destruct (fst (Command.Exec command args _)); simpl;
    rewrite <- ?app_assoc; simpl; eauto.
Qed.

(** [ping] alone, and [ping] followed by a space and nothing. *)
Lemma command_gets_the_pieces_witness :
  let env := Ref.env_with (Ref.steady 1700000000000000000) in
  let s := Ref.world_of Ref.bookmarks in
  (exists tail,
     w (snd (IndexHandler Ref.srv (Ref.get "ping") s))
     = CommandExec "ping" [] :: tail)
  /\ (exists tail,
        w (snd (IndexHandler Ref.srv (Ref.get "ping ") s))
        = CommandExec "ping" [""] :: tail).
Proof.
  intros env s. split.
  - refine (@command_gets_the_pieces env Ref.srv (Ref.get "ping") s
              "ping" "ping" [] Ref.ping (or_introl eq_refl)
              (or_introl (conj eq_refl eq_refl)) _ eq_refl eq_refl).
    discriminate.
  - refine (@command_gets_the_pieces env Ref.srv (Ref.get "ping ") s
              "ping " "ping" [""] Ref.ping (or_introl eq_refl)
              (or_intror (ex_intro _ "" (conj eq_refl eq_refl)))
              _ eq_refl eq_refl).
    discriminate.
Defined.

(** ** The list page *)

From Stdlib Require Import Permutation Sorted.

Section ListFacts.

Context {env : Env}.

Lemma visit_bookmark_eq key s bk :
  visit_bookmark key (s, bk)
  = match Get key (db s) with
    | Err e => (Some e, (s, bk))
    | Ok val =>
        (None,
         (s, (bk ++ [{| Bookmark.name := GoLib.TrimPrefix key "bookmark_";
                        Bookmark.url := val |}])%list))
    end.
Proof.
  unfold visit_bookmark, db_Get, on_db. destruct s as [d n r lg cs]. simpl.
  destruct (Get key d); reflexivity.
Qed.

(** The scan stops at the first key that cannot be read. *)
Lemma visit_all_bookmark keys : forall s bk,
  visit_all visit_bookmark keys (s, bk)
  = (fst (collect (db s) keys), (s, (bk ++ snd (collect (db s) keys))%list)).
Proof.
  induction keys as [|k keys IH]; intros s bk.
  - simpl. now rewrite app_nil_r.
  - cbn [visit_all collect]. rewrite visit_bookmark_eq.
    destruct (Get k (db s)) as [val|e].
    + rewrite IH. destruct (collect (db s) keys) as [err l]. simpl.
      now rewrite <- app_assoc.
    + simpl. now rewrite app_nil_r.
Qed.

Lemma scanBookmarks_eq s : scanBookmarks s = (scanned (db s), s).
Proof.
  unfold scanBookmarks, scanned, Scan. destruct (fault (db s)); [reflexivity|].
  rewrite visit_all_bookmark. simpl.
  now destruct (collect (db s) (scan_keys "bookmark_" (db s))).
Qed.

(** The handler as a function of the store. *)
Lemma ListHandler_eq srv p :
  ListHandler srv p
  = ((snd (scanned (db (world p))), listCommands commands),
     {| world := with_response (with_counter (world p) "n_list")
                   [Render "list"];
        stdlog := (stdlog p
                   ++ match fst (scanned (db (world p))) with
                      | Some e => [("error reading list of bookmarks: " ++ e)%string]
                      | None => []
                      end)%list |}).
Proof.
  unfold ListHandler, bindP, lift, Inc, render, respond, retP, log_Printf.
  cbn [world stdlog]. rewrite scanBookmarks_eq. cbn [db].
  destruct (scanned (db (world p))) as [[e|] bk]; cbn [fst snd world stdlog].
  - reflexivity.
  - now rewrite app_nil_r.
Qed.

Lemma prefix_drop p : forall s,
  String.prefix p s = true -> s = p ++ GoLib.drop (String.length p) s.
Proof.
  induction p as [|a p IH]; intros [|b s]; simpl; try discriminate;
    try reflexivity.
  destruct (ascii_dec a b) as [->|]; [|discriminate].
  intros H. now rewrite <- (IH _ H).
Qed.

Lemma TrimPrefix_key key :
  String.prefix "bookmark_" key = true ->
  "bookmark_" ++ GoLib.TrimPrefix key "bookmark_" = key.
Proof.
  intros H. unfold GoLib.TrimPrefix. rewrite H.
  symmetry. now apply prefix_drop.
Qed.

Lemma TrimPrefix_name name :
  GoLib.TrimPrefix ("bookmark_" ++ name) "bookmark_" = name.
Proof. unfold GoLib.TrimPrefix. now rewrite prefix_app. Qed.

Lemma lookup_In key l c : lookup key l = Some c -> In key (map fst l).
Proof.
  induction l as [|[k c'] l IH]; simpl; [discriminate|].
  destruct (String.eqb_spec key k) as [->|_]; auto.
Qed.

Lemma Get_In key d v : Get key d = Ok v -> In key (map fst (cells d)).
Proof.
  unfold Get. destruct (fault d); [discriminate|].
  destruct (lookup key (cells d)) as [c|] eqn:Hl; [|discriminate].
  intros _. now apply lookup_In with (c := c).
Qed.

(** Every collected bookmark is the record of one of the keys. *)
Lemma collect_In d keys b :
  In b (snd (collect d keys)) ->
  exists k, In k keys
            /\ Get k d = Ok (Bookmark.url b)
            /\ Bookmark.name b = GoLib.TrimPrefix k "bookmark_".
Proof.
  induction keys as [|k keys IH]; cbn [collect]; [intros []|].
  destruct (Get k d) as [val|e] eqn:Hg; [|intros []].
  destruct (collect d keys) as [err l]. simpl. intros [<-|Hin].
  - exists k. simpl. auto.
  - destruct (IH Hin) as (k' & Hk' & H). exists k'. auto.
Qed.

(** When every key can be read, every key gives its bookmark. *)
Lemma collect_all d keys :
  (forall k, In k keys -> exists v, Get k d = Ok v) ->
  fst (collect d keys) = None
  /\ forall k v, In k keys -> Get k d = Ok v ->
       In {| Bookmark.name := GoLib.TrimPrefix k "bookmark_";
             Bookmark.url := v |} (snd (collect d keys)).
Proof.
  induction keys as [|k keys IH]; intros Hall; cbn [collect].
  - split; [reflexivity|intros k v []].
  - destruct (Hall k (or_introl eq_refl)) as (v0 & Hv0). rewrite Hv0.
    destruct IH as (Hnone & Hin); [intros k' Hk'; apply Hall; now right|].
    destruct (collect d keys) as [err l]. simpl in *. split; [exact Hnone|].
    intros k' v [<-|Hk'] Hg.
    + left. congruence.
    + right. now apply Hin.
Qed.


End ListFacts.

(** X4: when the store works and every bookmark record can be read, the
    bookmarks of the list page are exactly the records under the keys
    ["bookmark_" ++ name], each with the name after the prefix and the
    stored value as its URL; nothing is logged. *)
Theorem listed_bookmarks_are_the_records {env : Env} srv p :
  fault (db (world p)) = None ->
  (forall k, In k (scan_keys "bookmark_" (db (world p))) ->
             exists v, Get k (db (world p)) = Ok v) ->
  stdlog (snd (ListHandler srv p)) = stdlog p
  /\ forall b, In b (fst (fst (ListHandler srv p)))
               <-> Get ("bookmark_" ++ Bookmark.name b) (db (world p))
                   = Ok (Bookmark.url b).
Proof.
  intros Hf Hall. rewrite ListHandler_eq. cbn [fst snd stdlog].
  unfold scanned. rewrite Hf.
  destruct (collect_all _ _ Hall) as (Hnone & Hin). rewrite Hnone.
  split; [now rewrite app_nil_r|]. intros b. split.
  - intros Hb. apply collect_In in Hb. destruct Hb as (k & Hk & Hg & Hn).
    apply filter_In in Hk. destruct Hk as [_ Hp].
    now rewrite Hn, (TrimPrefix_key _ Hp).
  - intros Hg. destruct b as [name url]. cbn [Bookmark.name Bookmark.url] in *.
    rewrite <- (TrimPrefix_name name) at 1.
    apply Hin; [|exact Hg]. apply filter_In. split.
    + now apply Get_In with (v := url).
    + apply prefix_app.
Qed.

(** The store of a bookmark and one entry of the history. *)
Lemma listed_bookmarks_are_the_records_witness :
  let env := Ref.env_with (Ref.steady 1700000000000000000) in
  let p := process_of (Ref.world_of Ref.earlier) in
  fst (fst (ListHandler Ref.srv p))
  = [{| Bookmark.name := "gh";
        Bookmark.url := "https://github.com/search?q=%s" |}]
  /\ forall b, In b (fst (fst (ListHandler Ref.srv p)))
               <-> Get ("bookmark_" ++ Bookmark.name b) (db (world p))
                   = Ok (Bookmark.url b).
Proof.
  intros env p. split; [reflexivity|].
  refine (proj2 (@listed_bookmarks_are_the_records env Ref.srv p eq_refl _)).
  intros k [<-|[]]. eexists. reflexivity.
Defined.



Section ReadOnlyFacts.

Context {env : Env}.


End ReadOnlyFacts.


(** ** The commands of the list page *)

Section SortFacts.

Lemma leb_compare s1 s2 :
  String.leb s1 s2 = true <-> String.compare s1 s2 <> Gt.
Proof.
  unfold String.leb. destruct (String.compare s1 s2); split; congruence.
Qed.

Lemma leb_trans s1 s2 s3 :
  String.leb s1 s2 = true -> String.leb s2 s3 = true ->
  String.leb s1 s3 = true.
Proof.
  unfold String.leb.
  destruct (String.compare s1 s2) eqn:H12; try discriminate;
    destruct (String.compare s2 s3) eqn:H23; try discriminate; intros _ _.
  - apply String.compare_eq_iff in H12. subst. now rewrite H23.
  - apply String.compare_eq_iff in H12. subst. now rewrite H23.
  - apply String.compare_eq_iff in H23. subst. now rewrite H12.
  - now rewrite (compare_trans _ _ _ H12 H23).
Qed.

Lemma leb_false s1 s2 : String.leb s1 s2 = false -> String.leb s2 s1 = true.
Proof.
  intros H. destruct (String.leb_total s1 s2) as [H'|H']; congruence.
Qed.

(** Two insertions give the same slice in either order. *)
Lemma insert_name_comm x y l :
  GoLib.insert_name x (GoLib.insert_name y l)
  = GoLib.insert_name y (GoLib.insert_name x l).
Proof.
  induction l as [|z l IH]; cbn [GoLib.insert_name].
  - destruct (String.leb x y) eqn:Hxy, (String.leb y x) eqn:Hyx;
      try reflexivity.
    + now rewrite (String.leb_antisym _ _ Hxy Hyx).
    + apply leb_false in Hxy. congruence.
  - destruct (String.leb y z) eqn:Hyz, (String.leb x z) eqn:Hxz;
      cbn [GoLib.insert_name]; rewrite ?Hyz, ?Hxz.
    + destruct (String.leb x y) eqn:Hxy, (String.leb y x) eqn:Hyx;
        try reflexivity.
      * now rewrite (String.leb_antisym _ _ Hxy Hyx).
      * apply leb_false in Hxy. congruence.
    + destruct (String.leb x y) eqn:Hxy; [|reflexivity].
      rewrite (leb_trans _ _ _ Hxy Hyz) in Hxz. discriminate.
    + destruct (String.leb y x) eqn:Hyx; [|reflexivity].
      rewrite (leb_trans _ _ _ Hyx Hxz) in Hyz. discriminate.
    + now rewrite IH.
Qed.

(** The sorted slice does not depend on the order of the names. *)
Lemma Sort_Permutation_eq l l' :
  Permutation l l' -> GoLib.Sort l = GoLib.Sort l'.
Proof.
  induction 1 as [|x l l' _ IH|x y l|l l' l'' _ IH1 _ IH2]; simpl.
  - reflexivity.
  - now rewrite IH.
  - apply insert_name_comm.
  - congruence.
Qed.

Lemma insert_name_Permutation x l :
  Permutation (GoLib.insert_name x l) (x :: l).
Proof.
  induction l as [|y l IH]; simpl; [reflexivity|].
  destruct (String.leb x y); [reflexivity|].
  rewrite IH. apply perm_swap.
Qed.

Lemma Sort_Permutation l : Permutation (GoLib.Sort l) l.
Proof.
  induction l as [|x l IH]; simpl; [reflexivity|].
  rewrite insert_name_Permutation. now constructor.
Qed.

Lemma insert_name_Sorted x l :
  Sorted (fun a b => String.leb a b = true) l ->
  Sorted (fun a b => String.leb a b = true) (GoLib.insert_name x l).
Proof.
  induction 1 as [|y l Hl IH Hy]; simpl; [repeat constructor|].
  destruct (String.leb x y) eqn:Hxy.
  - constructor; [now constructor|now constructor].
  - constructor; [exact IH|].
    destruct l as [|z l]; simpl.
    + constructor. now apply leb_false.
    + inversion Hy; subst. destruct (String.leb x z); constructor;
        [now apply leb_false|assumption].
Qed.

Lemma Sort_Sorted l : Sorted (fun a b => String.leb a b = true) (GoLib.Sort l).
Proof.
  induction l as [|x l IH]; simpl; [constructor|].
  now apply insert_name_Sorted.
Qed.

(** In a table without repeated keys the lookup does not depend on the
    order of the rows. *)
Lemma assoc_Permutation (t t' : list (string * Command.t)) name :
  NoDup (map fst t) -> Permutation t t' -> assoc name t = assoc name t'.
Proof.
  intros Hnd Hp. induction Hp as [|[k c] l l' Hp IH|[k1 c1] [k2 c2] l
                                    |l l' l'' Hp1 IH1 Hp2 IH2]; simpl.
  - reflexivity.
  - inversion Hnd; subst. now rewrite IH.
  - destruct (String.eqb_spec name k1) as [E1|], (String.eqb_spec name k2)
      as [E2|]; try reflexivity.
    simpl in Hnd. inversion Hnd as [|? ? Hin _]; subst.
    exfalso. apply Hin. now left.
  - rewrite IH1 by assumption. apply IH2.
    eapply Permutation_NoDup; [|exact Hnd]. now apply Permutation_map.
Qed.

Lemma assoc_In name (t : list (string * Command.t)) :
  In name (map fst t) ->
  exists command, assoc name t = Some command /\ In (name, command) t.
Proof.
  induction t as [|[k c] t IH]; simpl; [intros []|].
  destruct (String.eqb_spec name k) as [->|Hne].
  - intros _. exists c. auto.
  - intros [H|H]; [congruence|].
    destruct (IH H) as (c' & Hc' & Hin). exists c'. auto.
Qed.

Lemma listCommands_Forall2 (t : list (string * Command.t)) names :
  (forall name, In name names -> In name (map fst t)) ->
  Forall2 (fun name c =>
             exists command, c = Some command /\ In (name, command) t)
          names (map (fun name => assoc name t) names).
Proof.
  induction names as [|n names IH]; intros H; simpl; constructor.
  - destruct (assoc_In n t (H n (or_introl eq_refl))) as (c & Hc & Hin).
    exists c. auto.
  - apply IH. intros name Hn. apply H. now right.
Qed.

End SortFacts.

(** X7: the commands of the list page are those of the table, each once,
    in ascending order of the names they are registered under, and they
    come out the same whichever way the table is traversed. *)
Theorem commands_listed_in_name_order {env : Env} (env' : Env) srv p p' :
  NoDup (map fst (@commands env)) ->
  let names := GoLib.Sort (map fst (@commands env)) in
  let cmd := snd (fst (@ListHandler env srv p)) in
  Sorted (fun a b => String.leb a b = true) names
  /\ Permutation names (map fst (@commands env))
  /\ Forall2 (fun name c =>
                exists command,
                  c = Some command /\ In (name, command) (@commands env))
             names cmd
  /\ (Permutation (@commands env) (@commands env') ->
      snd (fst (@ListHandler env' srv p')) = cmd).
Proof.
  intros Hnd names cmd. subst names cmd. rewrite !ListHandler_eq.
  cbn [fst snd]. unfold listCommands.
  split; [apply Sort_Sorted|]. split; [apply Sort_Permutation|]. split.
  - apply listCommands_Forall2. intros name Hn.
    eapply Permutation_in; [apply Sort_Permutation|exact Hn].
  - intros Hp.
    rewrite <- (Sort_Permutation_eq (Permutation_map fst Hp)).
    apply map_ext. intros name. symmetry. now apply assoc_Permutation.
Qed.

(** The table [ping], [date] and the table [date], [ping]. *)
Lemma commands_listed_in_name_order_witness :
  let clock := Ref.steady 1700000000000000000 in
  let p := process_of (Ref.world_of Ref.bookmarks) in
  snd (fst (@ListHandler (Ref.env_with clock) Ref.srv p))
  = [Some Ref.date; Some Ref.ping]
  /\ snd (fst (@ListHandler (Sample.env_reversed clock) Ref.srv p))
     = snd (fst (@ListHandler (Ref.env_with clock) Ref.srv p)).
Proof.
  intros clock p. split; [reflexivity|].
  refine (proj2 (proj2 (proj2
            (@commands_listed_in_name_order (Ref.env_with clock)
               (Sample.env_reversed clock) Ref.srv p p _))) _).
  - repeat constructor; simpl; intuition discriminate.
  - apply perm_swap.
Defined.

(** ** More on the keys of the history *)

Section KeyFacts.

Lemma BuildHistoryKey_inj ts1 ts2 :
  BuildHistoryKey ts1 = BuildHistoryKey ts2 -> ts1 = ts2.
Proof.
  unfold BuildHistoryKey. intros H.
  assert (E : Go.fmt_d ts1 = Go.fmt_d ts2) by (simpl in H; congruence).
  pose proof (fmt_d_read_int ts1) as H1. rewrite E, fmt_d_read_int in H1.
  congruence.
Qed.

Lemma BuildHistoryKey_not_bookmark ts :
  String.prefix "bookmark_" (BuildHistoryKey ts) = false.
Proof. reflexivity. Qed.

(** A key outside the prefix of a scan does not show in it. *)
Lemma scan_keys_insert_other prefix key c l :
  String.prefix prefix key = false ->
  filter (String.prefix prefix) (map fst (insert key c l))
  = filter (String.prefix prefix) (map fst l).
Proof.
  intros Hp. induction l as [|[k c'] l IH]; simpl.
  - now rewrite Hp.
  - destruct (String.compare key k) eqn:Hc; simpl.
    + apply String.compare_eq_iff in Hc. subst k. reflexivity.
    + now rewrite Hp.
    + now rewrite IH.
Qed.

Lemma collect_ext d d' keys :
  (forall k, In k keys -> Get k d' = Get k d) ->
  collect d' keys = collect d keys.
Proof.
  induction keys as [|k keys IH]; intros H; cbn [collect]; [reflexivity|].
  rewrite (H k (or_introl eq_refl)).
  rewrite IH by (intros k' Hk'; apply H; now right). reflexivity.
Qed.

(** A second record under the same key replaces the first. *)
Lemma insert_insert key c1 c2 l :
  insert key c2 (insert key c1 l) = insert key c2 l.
Proof.
  induction l as [|[k c] l IH]; simpl.
  - now rewrite compare_refl.
  - destruct (String.compare key k) eqn:Hc; simpl.
    + now rewrite compare_refl.
    + now rewrite compare_refl.
    + now rewrite Hc, IH.
Qed.

End KeyFacts.

(** X8: entries with different timestamps are stored under different
    keys, whatever the sign and the number of digits of the timestamps. *)
Theorem history_keys_differ ts1 ts2 :
  ts1 <> ts2 -> BuildHistoryKey ts1 <> BuildHistoryKey ts2.
Proof. intros Hne H. apply Hne. now apply BuildHistoryKey_inj. Qed.

(** A timestamp and its opposite, and the two sides of a new digit. *)
Lemma history_keys_differ_witness :
  BuildHistoryKey (-5) <> BuildHistoryKey 5
  /\ BuildHistoryKey 999999999 <> BuildHistoryKey 1000000000.
Proof.
  split.
  - apply (@history_keys_differ (-5) 5). discriminate.
  - apply (@history_keys_differ 999999999 1000000000). discriminate.
Defined.

(** X9: appending to the history never changes the list page: the
    bookmarks shown and the lines logged for them are those of the store
    before the append, whether the append succeeds or fails. *)
Theorem history_leaves_the_list_page {env : Env} srv command value s lines :
  let after :=
    {| world := snd (AddHistoryEntry command value s); stdlog := lines |} in
  let before := {| world := s; stdlog := lines |} in
  fst (ListHandler srv after) = fst (ListHandler srv before)
  /\ stdlog (snd (ListHandler srv after)) = stdlog (snd (ListHandler srv before)).
Proof.
  intros after before. subst after before. rewrite !ListHandler_eq.
  cbn [fst snd world stdlog].
  assert (E : scanned (db (snd (AddHistoryEntry command value s)))
              = scanned (db s)).
  { destruct (json_Marshal {| Timestamp := UnixNano (ticks s);
                              Command := command; Value := value |})
      as [b|err] eqn:Hm.
    - rewrite (AddHistoryEntry_Ok _ _ _ Hm). cbn [snd with_db db].
      unfold Put. destruct (fault (db s)) as [e|] eqn:Hf; [reflexivity|].
      cbn [snd]. unfold scanned. cbn [fault]. rewrite Hf.
      unfold scan_keys. cbn [cells].
      rewrite scan_keys_insert_other by apply BuildHistoryKey_not_bookmark.
      apply collect_ext. intros k Hk. apply filter_In in Hk.
      destruct Hk as [_ Hp]. unfold Get. cbn [fault cells]. rewrite Hf.
      rewrite lookup_insert_other; [reflexivity|].
      intros ->. rewrite BuildHistoryKey_not_bookmark in Hp. discriminate.
    - now rewrite (AddHistoryEntry_Err _ _ _ Hm). }
  rewrite E. auto.
Qed.

(** X10: two appends that read the same nanosecond share their key: when
    the second succeeds the store is as if the first had not been made,
    so that only the second entry is left. *)
Theorem same_reading_overwrites {env : Env} cA vA cB vB s :
  let s1 := snd (AddHistoryEntry cA vA s) in
  let s2 := snd (AddHistoryEntry cB vB s1) in
  UnixNano (S (ticks s)) = UnixNano (ticks s) ->
  fst (AddHistoryEntry cB vB s1) = None ->
  db s2 = db (snd (AddHistoryEntry cB vB (tick s))).
Proof.
  intros s1 s2 Hclock Hok. subst s2.
  destruct (AddHistoryEntry_frame cA vA s) as (_ & Ht1 & _). fold s1 in Ht1.
  destruct (json_Marshal {| Timestamp := UnixNano (ticks s1);
                            Command := cB; Value := vB |}) as [b|err] eqn:Hm.
  2:{ rewrite (AddHistoryEntry_Err _ _ _ Hm) in Hok. discriminate. }
  rewrite (AddHistoryEntry_Ok _ _ _ Hm) in Hok |- *. cbn [fst snd with_db db] in *.
  assert (Hm' : json_Marshal {| Timestamp := UnixNano (ticks (tick s));
                               Command := cB; Value := vB |} = Ok b)
    by (cbn [tick ticks]; now rewrite <- Ht1).
  rewrite (AddHistoryEntry_Ok _ _ _ Hm'). cbn [snd with_db db tick ticks].
  rewrite Ht1 in *. rewrite Hclock in *.
  unfold Put in Hok |- *.
  destruct (fault (db s1)) as [e|] eqn:Hf1; cbn [fst snd] in Hok |- *;
    [discriminate Hok|].
  subst s1.
  destruct (json_Marshal {| Timestamp := UnixNano (ticks s);
                            Command := cA; Value := vA |}) as [a|err] eqn:HmA.
  - rewrite (AddHistoryEntry_Ok _ _ _ HmA) in Hf1 |- *.
    cbn [snd with_db db] in *. unfold Put in Hf1 |- *.
    destruct (fault (db s)) as [e|] eqn:Hf; cbn [snd] in Hf1 |- *;
      [congruence|].
    cbn [cells fault]. now rewrite insert_insert.
  - rewrite (AddHistoryEntry_Err _ _ _ HmA) in Hf1 |- *.
    cbn [snd tick db] in *. now rewrite Hf1.
Qed.

(** A clock that stands still. *)
Lemma same_reading_overwrites_witness :
  let env :=
    Ref.env_with (Ref.readings [1700000000000000005; 1700000000000000005]) in
  let s := Ref.world_of (Ref.open_store []) in
  let s1 := snd (AddHistoryEntry "ping" "" s) in
  let s2 := snd (AddHistoryEntry "gh" "golang" s1) in
  fst (listHistory s1)
  = Some [{| Timestamp := 1700000000000000005;
             Command := "ping"; Value := "" |}]
  /\ fst (listHistory s2)
     = Some [{| Timestamp := 1700000000000000005;
                Command := "gh"; Value := "golang" |}]
  /\ db s2 = db (snd (AddHistoryEntry "gh" "golang" (tick s))).
Proof.
  intros env s s1 s2. split; [reflexivity|]. split; [reflexivity|].
  exact (@same_reading_overwrites env "ping" "" "gh" "golang" s
           eq_refl eq_refl).
Defined.

Section CountFacts.

Context {env : Env}.

Lemma decoded_failures_length d keys :
  (List.length (decoded d keys) + List.length (failures d keys))%nat
  = List.length keys.
Proof.
  induction keys as [|k keys IH]; simpl; [reflexivity|].
  destruct (decode d k); simpl; lia.
Qed.

Lemma lookup_None key l : lookup key l = None -> ~ In key (map fst l).
Proof.
  induction l as [|[k c] l IH]; simpl; [tauto|].
  destruct (String.eqb_spec key k) as [->|Hne]; [discriminate|].
  intros H [E|Hin]; [congruence|]. now apply IH.
Qed.

(** A new key goes between two parts of the store. *)
Lemma insert_fresh key c l :
  lookup key l = None ->
  exists l1 l2, l = (l1 ++ l2)%list /\ insert key c l = (l1 ++ (key, c) :: l2)%list.
Proof.
  induction l as [|[k c'] l IH]; simpl; intros Hl.
  - exists [], []. auto.
  - destruct (String.eqb_spec key k) as [->|Hne]; [discriminate|].
    destruct (String.compare key k) eqn:Hc.
    + apply String.compare_eq_iff in Hc. contradiction.
    + exists [], ((k, c') :: l). auto.
    + destruct (IH Hl) as (l1 & l2 & -> & ->).
      exists ((k, c') :: l1), l2. auto.
Qed.

End CountFacts.

(** X11: an append at a reading no stored entry has adds exactly its
    entry to the listing and leaves every other entry in it: the listing
    after the append is a rearrangement of the new entry and the listing
    before. *)
Theorem append_adds_one_entry {env : Env} command value s before :
  let ts := UnixNano (ticks s) in
  let e := {| Timestamp := ts; Command := command; Value := value |} in
  let s' := snd (AddHistoryEntry command value s) in
  fault (db s) = None ->
  roundtrip e ->
  lookup (BuildHistoryKey ts) (cells (db s)) = None ->
  fst (listHistory s) = Some before ->
  exists after,
    fst (listHistory s') = Some after /\ Permutation after (e :: before).
Proof.
  intros ts e s' Hf (b & Hm & Hu) Hfresh Hbefore. subst s'.
  rewrite (listHistory_open _ Hf) in Hbefore. cbn [fst] in Hbefore.
  injection Hbefore as <-.
  rewrite (AddHistoryEntry_stored _ _ _ Hm Hf). cbn [snd]. fold ts.
  set (d' := {| cells := insert (BuildHistoryKey ts) (Readable b)
                           (cells (db s)); fault := None |}).
  assert (Hf' : fault (db (with_db (tick s) d')) = None) by reflexivity.
  rewrite (listHistory_open _ Hf'). cbn [fst with_db db].
  eexists. split; [reflexivity|].
  destruct (insert_fresh (BuildHistoryKey ts) (Readable b) _ Hfresh)
    as (l1 & l2 & Hl & Hins).
  pose proof (lookup_None _ _ Hfresh) as Hnot.
  unfold scan_keys. subst d'. cbn [cells]. rewrite Hins, Hl.
  rewrite !map_app, !filter_app. cbn [map filter fst].
  rewrite BuildHistoryKey_prefix, !decoded_app. cbn [decoded].
  rewrite <- Hins.
  rewrite (@decode_insert_same env (db s) (BuildHistoryKey ts) b e Hf Hu).
  assert (Hold : forall l0, (forall k, In k l0 -> In k (map fst (cells (db s)))) ->
            decoded {| cells := insert (BuildHistoryKey ts) (Readable b)
                                  (cells (db s)); fault := None |}
              (filter (String.prefix "history_") l0)
            = decoded (db s) (filter (String.prefix "history_") l0)).
  { intros l0 Hsub. apply decoded_ext. intros k Hk.
    apply filter_In in Hk. destruct Hk as [Hk _].
    apply decode_insert_other; [exact Hf|]. intros ->. apply Hnot.
    now apply Hsub. }
  rewrite !Hold.
  - rewrite <- !Permutation_rev. symmetry. apply Permutation_middle.
  - intros k Hk. rewrite Hl, map_app. apply in_or_app. now right.
  - intros k Hk. rewrite Hl, map_app. apply in_or_app. now left.
Qed.

(** An append at a reading below those of the stored entries. *)
Lemma append_adds_one_entry_witness :
  let env := Ref.env_with (Ref.steady 1650000000000000000) in
  let s := Ref.world_of Ref.damaged in
  let e := {| Timestamp := 1650000000000000000;
              Command := "gh"; Value := "rocq" |} in
  fst (listHistory s) = Some [Ref.entry3; Ref.entry1]
  /\ fst (listHistory (snd (AddHistoryEntry "gh" "rocq" s)))
     = Some [Ref.entry3; Ref.entry1; e]
  /\ exists after,
       fst (listHistory (snd (AddHistoryEntry "gh" "rocq" s))) = Some after
       /\ Permutation after [e; Ref.entry3; Ref.entry1].
Proof.
  intros env s e. split; [reflexivity|]. split; [reflexivity|].
  refine (@append_adds_one_entry env "gh" "rocq" s [Ref.entry3; Ref.entry1]
            eq_refl _ eq_refl eq_refl).
  eexists. split; reflexivity.
Defined.

(** X12: on a working store every record of the history is either listed
    or logged, and only one of the two: the entries listed and the lines
    logged by a listing are together as many as the history keys. *)
Theorem every_record_listed_or_logged {env : Env} s :
  fault (db s) = None ->
  exists l lines,
    listHistory s = (Some l, with_logged s lines)
    /\ (List.length l + List.length lines)%nat
       = List.length (scan_keys "history_" (db s)).
Proof.
  intros Hf. rewrite (listHistory_open _ Hf). do 2 eexists.
  split; [reflexivity|]. rewrite length_rev. apply decoded_failures_length.
Qed.

(** Three records, one of them damaged. *)
Lemma every_record_listed_or_logged_witness :
  let env := Ref.env_with (Ref.steady 1700000000000000000) in
  let s := Ref.world_of Ref.damaged in
  List.length (scan_keys "history_" (db s)) = 3%nat
  /\ exists l lines,
       listHistory s = (Some l, with_logged s lines)
       /\ (List.length l + List.length lines)%nat
          = List.length (scan_keys "history_" (db s)).
Proof.
  intros env s. split; [reflexivity|].
  exact (@every_record_listed_or_logged env s eq_refl).
Defined.

(** ** The order of the listing *)

Section OrderFacts.

Context {env : Env}.

Lemma ascending_keys l :
  ascending l = true ->
  StronglySorted (fun a b => String.ltb a b = true) (map fst l).
Proof.
  induction l as [|[k c] l IH]; intros H; simpl; constructor.
  - apply IH. now apply ascending_tail in H.
  - now apply ascending_head in H.
Qed.

Lemma StronglySorted_filter_keys (R : string -> string -> Prop) f l :
  StronglySorted R l -> StronglySorted R (filter f l).
Proof.
  induction 1 as [|a l _ IH Hall]; simpl; [constructor|].
  destruct (f a); [|exact IH]. constructor; [exact IH|].
  rewrite Forall_forall in Hall |- *. intros x Hx.
  apply filter_In in Hx. now apply Hall.
Qed.

(** Among timestamps of equally many digits the order of the keys is that
    of the timestamps, both ways. *)
Lemma BuildHistoryKey_lt_inv (n : nat) a b :
  10 ^ Z.of_nat n <= a < 10 ^ Z.of_nat (S n) ->
  10 ^ Z.of_nat n <= b < 10 ^ Z.of_nat (S n) ->
  String.ltb (BuildHistoryKey a) (BuildHistoryKey b) = true -> a < b.
Proof.
  intros Ha Hb Hlt.
  destruct (Z.lt_trichotomy a b) as [H|[->|H]]; [exact H| |].
  - rewrite ltb_irrefl in Hlt. discriminate.
  - assert (Hba : String.ltb (BuildHistoryKey b) (BuildHistoryKey a) = true)
      by (apply (@BuildHistoryKey_lt n); lia).
    pose proof (ltb_trans _ _ _ Hlt Hba) as Habs.
    rewrite ltb_irrefl in Habs. discriminate.
Qed.

Lemma descending_snoc l e :
  descending l -> Forall (fun x => Timestamp e < Timestamp x) l ->
  descending (l ++ [e]).
Proof.
  induction l as [|a l IH]; simpl; intros Hd Hall.
  - split; [constructor|exact I].
  - destruct Hd as [Ha Hd]. inversion Hall; subst. split.
    + apply Forall_app. split; [exact Ha|]. now constructor.
    + now apply IH.
Qed.

Lemma descending_rev l :
  StronglySorted (fun a b => Timestamp a < Timestamp b) l ->
  descending (rev l).
Proof.
  induction 1 as [|a l _ IH Hall]; simpl; [exact I|].
  apply descending_snoc; [exact IH|].
  rewrite Forall_forall in Hall |- *. intros x Hx. apply Hall.
  now apply in_rev.
Qed.

(** The entries of keys in ascending order, in a store written by
    appends, have ascending timestamps, and none is missing. *)
Lemma decoded_ascending (n : nat) d keys :
  StronglySorted (fun a b => String.ltb a b = true) keys ->
  (forall k, In k keys ->
     exists e, decode d k = Ok e
               /\ k = BuildHistoryKey (Timestamp e)
               /\ 10 ^ Z.of_nat n <= Timestamp e < 10 ^ Z.of_nat (S n)) ->
  StronglySorted (fun a b => Timestamp a < Timestamp b) (decoded d keys)
  /\ List.length (decoded d keys) = List.length keys.
Proof.
  induction 1 as [|k keys Hs IH Hall]; intros Hwf; simpl.
  - split; [constructor|reflexivity].
  - destruct (Hwf k (or_introl eq_refl)) as (e & Hd & Hk & Hr). rewrite Hd.
    destruct IH as [IHs IHl]; [intros k' Hk'; apply Hwf; now right|].
    split; [|simpl; now rewrite IHl]. constructor; [exact IHs|].
    rewrite Forall_forall in Hall |- *. intros e' He'.
    apply In_decoded in He'. destruct He' as (k' & Hk' & Hd').
    destruct (Hwf k' (or_intror Hk')) as (e'' & Hd'' & Hk'' & Hr'').
    assert (e'' = e') by congruence. subst e''.
    apply (@BuildHistoryKey_lt_inv n); auto.
    rewrite <- Hk, <- Hk''. now apply Hall.
Qed.

End OrderFacts.

(** X13: in a store written by appends alone whose timestamps have
    equally many digits, the listing has every entry of the history,
    strictly newest first by timestamp. *)
Theorem listing_is_newest_first {env : Env} (n : nat) s :
  fault (db s) = None ->
  history_wf n (db s) ->
  exists l,
    fst (listHistory s) = Some l
    /\ descending l
    /\ List.length l = List.length (scan_keys "history_" (db s)).
Proof.
  intros Hf [Hasc Hwf]. rewrite (listHistory_open _ Hf). eexists.
  split; [reflexivity|].
  destruct (@decoded_ascending env n (db s) (scan_keys "history_" (db s)))
    as [Hs Hl]; [|exact Hwf|].
  - unfold scan_keys. apply StronglySorted_filter_keys.
    now apply ascending_keys.
  - split; [now apply descending_rev|]. now rewrite length_rev.
Qed.

Section WfFacts.

Context {env : Env}.

(** The invariant of a store written by appends, through one more. *)
Lemma history_wf_append (n : nat) command value s :
  history_wf n (db s) ->
  roundtrip {| Timestamp := UnixNano (ticks s);
               Command := command; Value := value |} ->
  10 ^ Z.of_nat n <= UnixNano (ticks s) < 10 ^ Z.of_nat (S n) ->
  history_wf n (db (snd (AddHistoryEntry command value s))).
Proof.
  intros [Hasc Hwf] (b & Hm & Hu) Hr.
  rewrite (AddHistoryEntry_Ok _ _ _ Hm). cbn [snd with_db db].
  unfold Put. destruct (fault (db s)) as [e|] eqn:Hf; cbn [snd].
  { split; assumption. }
  split; [cbn [cells]; now apply ascending_insert|].
  intros k Hk. unfold scan_keys in Hk. cbn [cells] in Hk.
  apply filter_In in Hk. destruct Hk as [Hk Hp].
  destruct (String.eqb_spec k (BuildHistoryKey (UnixNano (ticks s))))
    as [->|Hne].
  - eexists.
    split; [exact (@decode_insert_same env (db s) _ b _ Hf Hu)|].
    simpl. auto.
  - rewrite (@decode_insert_other env (db s)
               (BuildHistoryKey (UnixNano (ticks s))) b k Hf Hne).
    apply Hwf. apply filter_In. split; [|exact Hp].
    destruct (@insert_keys _ _ _ _ Hk); [contradiction|assumption].
Qed.

(** A store with no record has the invariant. *)
Lemma history_wf_empty (n : nat) f :
  history_wf n {| cells := []; fault := f |}.
Proof. split; [reflexivity|intros k []]. Qed.

End WfFacts.

(** Two appends with the clock set back in between: the entry appended
    second is listed last. *)
Lemma listing_is_newest_first_witness :
  let env :=
    Ref.env_with (Ref.readings [1700000000000000005; 1700000000000000003]) in
  let s := Ref.world_of (Ref.open_store []) in
  let s1 := snd (AddHistoryEntry "ping" "" s) in
  let s2 := snd (AddHistoryEntry "gh" "golang" s1) in
  fst (listHistory s2)
  = Some [{| Timestamp := 1700000000000000005;
             Command := "ping"; Value := "" |};
          {| Timestamp := 1700000000000000003;
             Command := "gh"; Value := "golang" |}]
  /\ exists l,
       fst (listHistory s2) = Some l
       /\ descending l
       /\ List.length l = List.length (scan_keys "history_" (db s2)).
Proof.
  intros env s s1 s2. split; [reflexivity|].
  refine (@listing_is_newest_first env 18 s2 eq_refl _).
  apply (@history_wf_append env 18 "gh" "golang" s1).
  - apply (@history_wf_append env 18 "ping" "" s).
    + apply history_wf_empty.
    + eexists. split; reflexivity.
    + split; [vm_compute; discriminate|reflexivity].
  - eexists. split; reflexivity.
  - split; [vm_compute; discriminate|reflexivity].
Defined.

(** X14: an append at a reading of [n + 1] digits keeps a store written
    by appends what it is: the keys stay in ascending order and every
    record of the history still decodes to the entry of its key. *)
Theorem append_keeps_history_wf {env : Env} (n : nat) command value s :
  let ts := UnixNano (ticks s) in
  history_wf n (db s) ->
  roundtrip {| Timestamp := ts; Command := command; Value := value |} ->
  10 ^ Z.of_nat n <= ts < 10 ^ Z.of_nat (S n) ->
  history_wf n (db (snd (AddHistoryEntry command value s))).
Proof. intros ts. now apply history_wf_append. Qed.

(** The first append of a run. *)
Lemma append_keeps_history_wf_witness :
  let env := Ref.env_with (Ref.steady 1700000000000000000) in
  let s := Ref.world_of (Ref.open_store []) in
  history_wf 18 (db s)
  /\ history_wf 18 (db (snd (AddHistoryEntry "gh" "golang" s))).
Proof.
  intros env s. split; [apply history_wf_empty|].
  refine (@append_keeps_history_wf env 18 "gh" "golang" s _ _ _).
  - apply history_wf_empty.
  - eexists. split; reflexivity.
  - split; [vm_compute; discriminate|reflexivity].
Defined.

(** ** Shutting down *)

(** X15: when the server cannot be stopped, [Shutdown] returns and logs
    that error and leaves the store open.  When it can and the store
    works, [Shutdown] closes the store without a line logged, keeping its
    records; from then on an append returns an error and stores nothing,
    and the history page answers with the status 500 alone. *)
Theorem after_Shutdown {env : Env} srv stopped p command value :
  match stopped with
  | Some e =>
      Shutdown stopped p
      = (Some e,
         {| world := world p;
            stdlog := (stdlog p
                       ++ [("error shutting down server: " ++ e)%string])%list |})
  | None =>
      fault (db (world p)) = None ->
      let p' := snd (Shutdown stopped p) in
      fst (Shutdown stopped p) = None
      /\ stdlog p' = stdlog p
      /\ cells (db (world p')) = cells (db (world p))
      /\ (exists e, fst (AddHistoryEntry command value (world p')) = Some e)
      /\ db (snd (AddHistoryEntry command value (world p'))) = db (world p')
      /\ w (snd (HistoryHandler srv (world p')))
         = (w (world p) ++ [WriteHeader StatusInternalServerError])%list
  end.
Proof.
  destruct stopped as [e|]; [reflexivity|]. intros Hf p'.
  assert (Hp' : p' = {| world := with_db (world p)
                                   {| cells := cells (db (world p));
                                      fault := Some ErrDatabaseClosed |};
                        stdlog := stdlog p |}).
  { subst p'. unfold Shutdown, bindP, lift, on_db, Close. rewrite Hf.
    reflexivity. }
  assert (Hr : fst (Shutdown None p) = None).
  { unfold Shutdown, bindP, lift, on_db, Close. now rewrite Hf. }
  rewrite Hp'. cbn [world stdlog].
  set (s' := with_db (world p) _).
  assert (Hf' : fault (db s') = Some ErrDatabaseClosed) by reflexivity.
  split; [exact Hr|]. split; [reflexivity|]. split; [reflexivity|].
  split; [|split].
  - destruct (json_Marshal {| Timestamp := UnixNano (ticks s');
                              Command := command; Value := value |})
      as [b|err] eqn:Hm.
    + rewrite (AddHistoryEntry_Ok _ _ _ Hm). unfold Put. rewrite Hf'.
      cbn [fst]. eauto.
    + rewrite (AddHistoryEntry_Err _ _ _ Hm). cbn [fst]. eauto.
  - destruct (json_Marshal {| Timestamp := UnixNano (ticks s');
                              Command := command; Value := value |})
      as [b|err] eqn:Hm.
    + rewrite (AddHistoryEntry_Ok _ _ _ Hm). unfold Put. rewrite Hf'.
      reflexivity.
    + rewrite (AddHistoryEntry_Err _ _ _ Hm). reflexivity.
  - rewrite HistoryHandler_eq.
    rewrite (@listHistory_fault env (with_counter s' "n_history")
               ErrDatabaseClosed Hf').
    reflexivity.
Qed.

(** A server that does not stop, and one that does. *)
Lemma after_Shutdown_witness :
  let env := Ref.env_with (Ref.steady 1700000000000000000) in
  let p := process_of (Ref.world_of Ref.bookmarks) in
  let p' := snd (Shutdown None p) in
  Shutdown (Some "context deadline exceeded") p
  = (Some "context deadline exceeded",
     {| world := world p;
        stdlog := ["error shutting down server: context deadline exceeded"] |})
  /\ fst (Shutdown None p) = None
  /\ fst (AddHistoryEntry "gh" "golang" (world p'))
     = Some "error: database is closed"
  /\ w (snd (HistoryHandler Ref.srv (world p'))) = [WriteHeader 500].
Proof.
  intros env p p'. split.
  - exact (@after_Shutdown env Ref.srv (Some "context deadline exceeded") p
             "gh" "golang").
  - destruct (@after_Shutdown env Ref.srv None p "gh" "golang" eq_refl)
      as (Hr & _ & _ & _ & _ & Hh).
    split; [exact Hr|]. split; [reflexivity|exact Hh].
Defined.

(** ** A failed append after a command *)

(** An append that returns an error has stored nothing. *)
Lemma AddHistoryEntry_writes_nothing_on_failure {env : Env}
  command value s e :
  fst (AddHistoryEntry command value s) = Some e ->
  db (snd (AddHistoryEntry command value s)) = db s.
Proof.
  destruct (json_Marshal {| Timestamp := UnixNano (ticks s);
                            Command := command; Value := value |})
    as [b|err] eqn:Hm.
  - rewrite (AddHistoryEntry_Ok _ _ _ Hm). cbn [fst snd with_db db].
    intros H. now apply Put_failed with (e := e).
  - now rewrite (AddHistoryEntry_Err _ _ _ Hm).
Qed.

(** X16: when the append to the history fails after a command has run,
    the execution stands: the response has the command's [Exec], the
    error 500 of the command if it returned one, and then the status 500
    of the append; the store is the one the command left. *)
Theorem failed_append_is_flagged {env : Env} srv q cmd args s command e :
  let executed := with_db s (snd (Command.Exec command args (db s))) in
  let s' := snd (dispatch srv q cmd args s) in
  cmd <> "" ->
  LookupCommand cmd = Some command ->
  fst (AddHistoryEntry (Command.Name command) "" executed) = Some e ->
  w s'
  = (w s ++ CommandExec (Command.Name command) args
       :: match fst (Command.Exec command args (db s)) with
          | Some err =>
              [HttpError ("Error processing command "
                            ++ Command.Name command ++ ": " ++ err)%string
                 StatusInternalServerError]
          | None => []
          end
       ++ [WriteHeader StatusInternalServerError])%list
  /\ db s' = snd (Command.Exec command args (db s)).
Proof.
  intros executed s' Hne Hc Hfail. subst s'.
  rewrite (dispatch_command srv q args s Hne Hc). cbn [snd].
  match goal with |- context [flag (AddHistoryEntry ?c ?v ?x)] =>
    destruct (AddHistoryEntry_frame c v x) as (Hw & _);
    destruct (@AddHistoryEntry_store env c v x executed) as (Hr & Hd);
    [unfold report; destruct (fst (Command.Exec command args (db s)));
       reflexivity
    |unfold report; destruct (fst (Command.Exec command args (db s)));
       reflexivity|];
    set (r := AddHistoryEntry c v x) in *
  end.
  rewrite Hfail in Hr. unfold flag. rewrite Hr. cbn [with_response w db].
  rewrite Hw, Hd. split.
  - unfold report.
    destruct (fst (Command.Exec command args (db s))); simpl;
      rewrite <- ?app_assoc; reflexivity.
  - pose proof (@AddHistoryEntry_writes_nothing_on_failure env
                  (Command.Name command) "" executed e Hfail) as Hsame.
    now rewrite Hsame.
Qed.

(** A command that fails, on a closed store. *)
Lemma failed_append_is_flagged_witness :
  let env := Ref.env_with (Ref.steady 1700000000000000000) in
  let s := Ref.world_of Ref.closed in
  w (snd (dispatch Ref.srv "date" "date" [] s))
  = [CommandExec "date" [];
     HttpError "Error processing command date: date: unknown zone" 500;
     WriteHeader 500]
  /\ db (snd (dispatch Ref.srv "date" "date" [] s)) = Ref.closed.
Proof.
  intros env s.
  refine (@failed_append_is_flagged env Ref.srv "date" "date" [] s Ref.date
            "error: database is closed" _ eq_refl eq_refl).
  discriminate.
Defined.
